(** * Multi-agent pull-request reviewer: the result aggregator

    A shallow embedding of [src/multi_agent_reviewer.py]:
    - [parse_json_response], the response extractor;
    - the second half of [run_review], which folds the five specialist
      outputs and the tech-lead synthesis into the final report;
    - [PRReviewOrchestrator._run_async_impl], the two-phase event generator;
    - [get_github_mcp_tools], [discover_mcp_tools] and the control flow of
      [main].

    The agent framework, the model calls and the [json] module are external
    to the repository.  The JSON decoder is a parameter of the development
    (class [Decoder]); a reference decoder for a subset of JSON is defined
    below and serves to run the model on concrete texts. *)

From Stdlib Require Import ZArith Ascii String.
From stdpp Require Import base option list gmap strings pretty.

Open Scope string_scope.
Open Scope Z_scope.
Open Scope list_scope.

(** ** Python values *)

(** A Python [float] as [json.loads] yields it: an IEEE-754 value, kept as
    sign, mantissa and binary exponent.  The development only needs to know
    whether it is zero and whether it equals another number. *)
Inductive pyfloat :=
  | FZero (neg : bool)
  | FInf (neg : bool)
  | FNaN
  | FFinite (neg : bool) (m : positive) (e : Z).

(** The values [json.loads] can return: [None], [bool], [int], [float],
    [str], [list] and [dict] (keyed by [str]). *)
#[warnings="-register-all"]
Inductive json :=
  | JNull
  | JBool (b : bool)
  | JInt (n : Z)
  | JFloat (f : pyfloat)
  | JStr (s : string)
  | JArr (l : list json)
  | JObj (d : gmap string json).

(** Exceptions that can cross the code under study.  [OtherError] stands
    for any other instance of [Exception], by the name of its class;
    [BaseError] for a raised value that is not an instance of [Exception]
    ([asyncio.CancelledError], [KeyboardInterrupt], [SystemExit],
    [GeneratorExit]). *)
Inductive exn :=
  | JSONDecodeError
  | TypeError
  | AttributeError
  | OtherError (name : string)
  | BaseError (name : string).

(** [isinstance(e, Exception)]: what an [except Exception] clause catches. *)
Definition is_exception (e : exn) : bool :=
  match e with
  | BaseError _ => false
  | _ => true
  end.

(** The result of running a piece of Python: a value or a raised exception. *)
Inductive outcome (A : Type) :=
  | Returns (a : A)
  | Raises (e : exn).
Arguments Returns {A} a.
Arguments Raises {A} e.

(** Sequencing: an exception raised by the first step ends the run. *)
#[global] Instance outcome_ret : MRet outcome := @Returns.
#[global] Instance outcome_bind : MBind outcome := λ A B k m,
  match m with
  | Returns a => k a
  | Raises e => Raises e
  end.

(** [bool(v)]: Python truth value testing. *)
Definition truthy (v : json) : bool :=
  match v with
  | JNull => false
  | JBool b => b
  | JInt n => negb (n =? 0)
  | JFloat (FZero _) => false
  | JFloat _ => true
  | JStr s => negb (String.eqb s EmptyString)
  | JArr l => match l with [] => false | _ => true end
  | JObj d => negb (bool_decide (d = ∅))
  end.

(** [len(v)]; numbers, booleans and [None] have no length. *)
Definition py_len (v : json) : outcome Z :=
  match v with
  | JStr s => Returns (Z.of_nat (String.length s))
  | JArr l => Returns (Z.of_nat (length l))
  | JObj d => Returns (Z.of_nat (size d))
  | _ => Raises TypeError
  end.

(** [d.get(key, default)]; only a [dict] has the method. *)
Definition py_get (v : json) (key : string) (dflt : json) : outcome json :=
  match v with
  | JObj d => Returns (default dflt (d !! key))
  | _ => Raises AttributeError
  end.

(** The one-character strings of a [str], in order. *)
Fixpoint chars (s : string) : list json :=
  match s with
  | EmptyString => []
  | String a r => JStr (String a EmptyString) :: chars r
  end.

(** Iterating over a value: the elements of a list, the characters of a
    string, the keys of a dict; anything else is not iterable. *)
Definition py_iter (v : json) : outcome (list json) :=
  match v with
  | JArr l => Returns l
  | JStr s => Returns (chars s)
  | JObj d => Returns (JStr <$> (map_to_list d).*1)
  | _ => Raises TypeError
  end.

(** Lists and dicts cannot be members of a [set]. *)
Definition hashable (v : json) : bool :=
  match v with
  | JArr _ | JObj _ => false
  | _ => true
  end.

(** Equality of a float with an integer, and of two floats, as exact
    numbers ([m * 2^e]). *)
Definition dyadic_eqb (m1 : Z) (e1 : Z) (m2 : Z) (e2 : Z) : bool :=
  if e1 <=? e2 then m1 =? m2 * 2 ^ (e2 - e1) else m1 * 2 ^ (e1 - e2) =? m2.

Definition signed (neg : bool) (m : positive) : Z :=
  if neg then Z.neg m else Z.pos m.

Definition float_eq_int (f : pyfloat) (n : Z) : bool :=
  match f with
  | FZero _ => n =? 0
  | FFinite neg m e => dyadic_eqb (signed neg m) e n 0
  | _ => false
  end.

(** The [json] module has one [NaN] object, so inside a set it is found by
    identity. *)
Definition float_eq (f g : pyfloat) : bool :=
  match f, g with
  | FZero _, FZero _ => true
  | FInf a, FInf b => Bool.eqb a b
  | FNaN, FNaN => true
  | FFinite n1 m1 e1, FFinite n2 m2 e2 => dyadic_eqb (signed n1 m1) e1 (signed n2 m2) e2
  | _, _ => false
  end.

Definition bool_int (b : bool) : Z := if b then 1 else 0.

(** [x == y] on hashable values: booleans are the integers 0 and 1, numbers
    compare by value, strings by content. *)
Definition py_eq (x y : json) : bool :=
  match x, y with
  | JNull, JNull => true
  | JBool a, JBool b => Bool.eqb a b
  | JBool a, JInt n | JInt n, JBool a => bool_int a =? n
  | JBool a, JFloat f | JFloat f, JBool a => float_eq_int f (bool_int a)
  | JInt a, JInt b => a =? b
  | JInt n, JFloat f | JFloat f, JInt n => float_eq_int f n
  | JFloat f, JFloat g => float_eq f g
  | JStr s, JStr t => String.eqb s t
  | _, _ => false
  end.

(** A Python [set] of hashable values, kept as the list of its members in
    insertion order (the first of several equal values stays).  Python leaves
    the iteration order unspecified; nothing below depends on it. *)
Definition pyset := list json.

Definition set_mem (x : json) (s : pyset) : bool := existsb (py_eq x) s.

Definition set_add (s : pyset) (x : json) : outcome pyset :=
  if hashable x then Returns (if set_mem x s then s else s ++ [x])
  else Raises TypeError.

(** [s.update(items)] for a sequence already obtained by iteration. *)
Fixpoint set_add_all (s : pyset) (items : list json) : outcome pyset :=
  match items with
  | [] => Returns s
  | x :: rest => s' ← set_add s x; set_add_all s' rest
  end.

(** [s.update(v)] *)
Definition set_update (s : pyset) (v : json) : outcome pyset :=
  items ← py_iter v; set_add_all s items.

(** ** Strings *)

(** [s.find(c)]: index of the first occurrence of [c], or -1. *)
Fixpoint find_from (c : ascii) (s : string) (i : Z) : Z :=
  match s with
  | EmptyString => -1
  | String a r => if Ascii.eqb a c then i else find_from c r (i + 1)
  end.

Definition find (s : string) (c : ascii) : Z := find_from c s 0.

(** [s.rfind(c)]: index of the last occurrence of [c], or -1. *)
Fixpoint rfind_from (c : ascii) (s : string) (i : Z) (last : Z) : Z :=
  match s with
  | EmptyString => last
  | String a r => rfind_from c r (i + 1) (if Ascii.eqb a c then i else last)
  end.

Definition rfind (s : string) (c : ascii) : Z := rfind_from c s 0 (-1).

(** [s[a:b]], used below only with [0 <= a < b <= len(s)]. *)
Definition slice (s : string) (a b : Z) : string :=
  substring (Z.to_nat a) (Z.to_nat (b - a)) s.

(** [s.lower()] on ASCII text. *)
Definition lower_ascii (a : ascii) : ascii :=
  let n := nat_of_ascii a in
  if (65 <=? n)%nat && (n <=? 90)%nat then ascii_of_nat (n + 32) else a.

Fixpoint lower (s : string) : string :=
  match s with
  | EmptyString => EmptyString
  | String a r => String (lower_ascii a) (lower r)
  end.

(** [sep.join(l)] *)
Fixpoint join (sep : string) (l : list string) : string :=
  match l with
  | [] => EmptyString
  | [x] => x
  | x :: rest => x +:+ sep +:+ join sep rest
  end.

(** ** The response extractor *)

(** [json.loads], external to the repository.  [Raises JSONDecodeError] is
    the failure the [json] module documents for a text that is not JSON; it
    raises other exceptions too: [ValueError] for an integer literal longer
    than the interpreter's limit of digits, [RecursionError] for a text
    nested too deeply. *)
Class Decoder := json_loads : string → outcome json.

(** The payload returned when no JSON can be extracted. *)
Definition fallback_payload (text : string) : json :=
  JObj (<["summary" := JStr text]>
       (<["findings" := JArr []]>
       (<["recommendation" := JStr "COMMENT"]> ∅))).

Section Extractor.
Context `{Decoder}.

(** The [try] body returns the decoded value; [except json.JSONDecodeError]
    falls through to the final [return]; any other exception propagates. *)
Definition parse_json_response (text : string) : outcome json :=
  let json_start := find text "{" in
  let json_end := rfind text "}" + 1 in
  if (0 <=? json_start) && (json_start <? json_end) then
    let json_str := slice text json_start json_end in
    match json_loads json_str with
    | Returns v => Returns v
    | Raises JSONDecodeError => Returns (fallback_payload text)
    | Raises e => Raises e
    end
  else Returns (fallback_payload text).
End Extractor.

(** ** Agents, events and the session store *)

Record LlmAgent := {
  name : string;
  description : string;
  output_key : string
}.

Definition create_specialist_agent (nm role : string) (focus_areas : list string)
  : LlmAgent :=
  {| name := nm;
     description := role +:+ " - Reviews PRs for " +:+ join ", " (take 2 focus_areas);
     output_key := lower nm +:+ "_review" |}.


(** The five specialists built by [PRReviewOrchestrator.__init__]. *)
Definition product_owner : LlmAgent :=
  create_specialist_agent "ProductOwner" "Product Owner"
    ["PR alignment with linked issues"; "Acceptance criteria validation";
     "Business value verification"; "Breaking changes impact"].

Definition senior_engineer : LlmAgent :=
  create_specialist_agent "SeniorEngineer" "Senior Software Engineer"
    ["Code quality and readability"; "Architecture and design patterns";
     "Performance implications"; "Error handling and edge cases"].

Definition security_engineer : LlmAgent :=
  create_specialist_agent "SecurityEngineer" "Security Engineer"
    ["Security vulnerabilities (OWASP Top 10)"; "Authentication/authorization";
     "Input validation"; "Secrets exposure"].

Definition devops_engineer : LlmAgent :=
  create_specialist_agent "DevOpsEngineer" "DevOps Engineer"
    ["CI/CD configuration"; "Infrastructure as Code";
     "Deployment risks"; "Monitoring and logging"].

Definition qa_engineer : LlmAgent :=
  create_specialist_agent "QAEngineer" "QA Engineer"
    ["Test coverage"; "Test quality"; "Edge cases"; "Regression risks"].

Definition specialist_agents : list LlmAgent :=
  [product_owner; senior_engineer; security_engineer; devops_engineer;
   qa_engineer].

(** What [run_review] reads of an event: whether it is a final response and
    the texts of its content parts ([None]: no content). *)
Record Event := {
  author : string;
  is_final_response : bool;
  content : option (list string)
}.

(** The loop over [runner.run_async]: the text of the first part of the last
    final response that has parts, the empty string if there is none. *)
Definition final_response_of (events : list Event) : string :=
  foldl (λ final_response event,
           if is_final_response event then
             match content event with
             | Some (text :: _) => text
             | _ => final_response
             end
           else final_response) EmptyString events.

(** The slots of [session.state] that hold agent outputs: an [LlmAgent]
    stores the text of its final response under its [output_key]. *)
Abbreviation session_state := (gmap string string).

(** ** The result aggregator *)

(** One entry of [specialist_results]. *)
Record SpecialistReview := {
  sr_agent : string;
  sr_role : json;
  sr_pr_accessed : json;
  sr_repository : json;
  sr_pr_number : json;
  sr_summary : json;
  sr_score : json;
  sr_files_reviewed : json;
  sr_recommendation : json;
  sr_rationale : json;
  sr_findings : json;
  sr_findings_count : Z
}.

(** The dictionary returned by [run_review]. *)
Record Report := {
  pr : string;
  repository : string;
  pr_number : Z;
  timestamp : string;
  data_access_status : string;
  data_access_issues : list string;
  files_reviewed : list json;
  summary : json;
  overall_score : json;
  auto_approve : json;
  congratulations_message : json;
  final_decision : json;
  critical_blockers : json;
  important_improvements : json;
  optional_suggestions : json;
  inline_comments : json;
  specialist_reviews : list SpecialistReview;
  rationale : json;
  next_steps : json
}.

(** The three variables the loop over the specialists builds up. *)
Record Collected := {
  specialist_results : list SpecialistReview;
  all_files_reviewed : pyset;
  issues : list string
}.

Definition congratulations_default : string :=
  "🎉 Great work! This PR looks clean and well-structured. Keep it up! 🚀✨".

Section Aggregator.
Context `{Decoder}.
Variables (owner repo : string) (pr_num : Z).

(** The body of [for agent in orchestrator.specialist_agents]. *)
Definition review_agent (state : session_state) (acc : Collected)
    (agent : LlmAgent) : outcome Collected :=
  let review_key := lower (name agent) +:+ "_review" in
  let review_text := default EmptyString (state !! review_key) in
  if negb (String.eqb review_text EmptyString) then
    parsed ← parse_json_response review_text;
    pr_accessed ← py_get parsed "pr_accessed" (JBool true);
    files_dflt ← py_get parsed "files_reviewed" (JArr []);
    files_in_diff ← py_get parsed "files_in_diff" files_dflt;
    seen ← (if negb (truthy pr_accessed) then
              Returns (all_files_reviewed acc,
                       issues acc ++ [name agent +:+ ": Could not access PR data"])
            else
              files ← set_update (all_files_reviewed acc) files_in_diff;
              Returns (files, issues acc));
    role ← py_get parsed "agent_role" (JStr (description agent));
    repository ← py_get parsed "repository" (JStr (owner +:+ "/" +:+ repo));
    number ← py_get parsed "pr_number" (JInt pr_num);
    summary ← py_get parsed "summary" (JStr EmptyString);
    score ← py_get parsed "score" (JInt 0);
    recommendation ← py_get parsed "recommendation" (JStr "COMMENT");
    rationale ← py_get parsed "rationale" (JStr EmptyString);
    findings ← py_get parsed "findings" (JArr []);
    findings_count ← py_len findings;
    Returns {|
      specialist_results :=
        specialist_results acc ++
         [ {| sr_agent := name agent;
              sr_role := role;
              sr_pr_accessed := pr_accessed;
              sr_repository := repository;
              sr_pr_number := number;
              sr_summary := summary;
              sr_score := score;
              sr_files_reviewed := files_in_diff;
              sr_recommendation := recommendation;
              sr_rationale := rationale;
              sr_findings := findings;
              sr_findings_count := findings_count |} ];
      all_files_reviewed := seen.1;
      issues := seen.2 |}
  else
    Returns {|
      specialist_results := specialist_results acc;
      all_files_reviewed := all_files_reviewed acc;
      issues := issues acc ++ [name agent +:+ ": No review output"] |}.

(** The whole loop, from the three empty collections. *)
Fixpoint review_agents (state : session_state) (acc : Collected)
    (agents : list LlmAgent) : outcome Collected :=
  match agents with
  | [] => Returns acc
  | agent :: rest =>
      acc' ← review_agent state acc agent; review_agents state acc' rest
  end.

Definition collect (state : session_state) : outcome Collected :=
  review_agents state
    {| specialist_results := []; all_files_reviewed := []; issues := [] |}
    specialist_agents.

(** [sum(len(r.get("findings", [])) for r in specialist_results)]; every
    entry has the key. *)
Fixpoint total_findings_of (results : list SpecialistReview) : outcome Z :=
  match results with
  | [] => Returns 0
  | r :: rest =>
      n ← py_len (sr_findings r);
      m ← total_findings_of rest;
      Returns (n + m)
  end.

Definition data_status_of (data_access_issues : list string) : string :=
  if (length data_access_issues =? 0)%nat then "all_success"
  else if (length data_access_issues =? length specialist_agents)%nat then "all_failed"
  else "partial_failure".

(** [run_review] from "Build results from session state" on.  The events
    yielded by the runner, the final session state and the clock reading
    are inputs: they come from the agent framework. *)
Definition run_review (now : string) (events : list Event)
    (state : session_state) : outcome Report :=
  let final_response := final_response_of events in
  acc ← collect state;
  let tech_lead_text := default final_response (state !! "tech_lead_synthesis") in
  tech_lead_parsed ← parse_json_response tech_lead_text;
  let data_status := data_status_of (issues acc) in
  auto_approve0 ← py_get tech_lead_parsed "auto_approve" (JBool false);
  final_decision0 ← py_get tech_lead_parsed "final_decision" (JStr "COMMENT");
  total_findings ← total_findings_of (specialist_results acc);
  let override := (total_findings =? 0) && String.eqb data_status "all_success" in
  let auto_approve := if override then JBool true else auto_approve0 in
  let final_decision := if override then JStr "APPROVE" else final_decision0 in
  summary ← py_get tech_lead_parsed "summary" (JStr "Review completed");
  overall_score ← py_get tech_lead_parsed "overall_score" (JInt 0);
  congratulations ← py_get tech_lead_parsed "congratulations_message"
                      (JStr congratulations_default);
  critical_blockers ← py_get tech_lead_parsed "critical_blockers" (JArr []);
  important_improvements ← py_get tech_lead_parsed "important_improvements" (JArr []);
  optional_suggestions ← py_get tech_lead_parsed "optional_suggestions" (JArr []);
  inline_comments ← py_get tech_lead_parsed "inline_comments" (JArr []);
  rationale ← py_get tech_lead_parsed "rationale" (JStr EmptyString);
  next_steps ← py_get tech_lead_parsed "next_steps" (JArr []);
  Returns {|
    pr := owner +:+ "/" +:+ repo +:+ "#" +:+ pretty pr_num;
    repository := owner +:+ "/" +:+ repo;
    pr_number := pr_num;
    timestamp := now;
    data_access_status := data_status;
    data_access_issues := issues acc;
    files_reviewed := all_files_reviewed acc;
    summary := summary;
    overall_score := overall_score;
    auto_approve := auto_approve;
    congratulations_message := congratulations;
    final_decision := final_decision;
    critical_blockers := critical_blockers;
    important_improvements := important_improvements;
    optional_suggestions := optional_suggestions;
    inline_comments := inline_comments;
    specialist_reviews := specialist_results acc;
    rationale := rationale;
    next_steps := next_steps |}.
End Aggregator.

(** ** A reference decoder

    A decoder for the part of JSON made of objects, arrays, strings without
    escape sequences, integers, [true], [false] and [null]; on such a text it
    returns what [json.loads] returns (a later duplicate key replaces an
    earlier one), and it raises [ValueError] as CPython does at an integer
    literal of more than 4300 digits
    ([sys.int_info.default_max_str_digits]).  Texts using fractions,
    exponents, escapes or the constants [NaN] and [Infinity] are rejected
    here, and the [RecursionError] of a text nested beyond the interpreter's
    recursion limit is not modelled.  It instantiates [Decoder] where the
    model is run on concrete texts. *)
Module RefDecoder.

(** The scanner's failure: the text is not JSON. *)
Definition reject {A} : outcome A := Raises JSONDecodeError.

Definition is_ws (a : ascii) : bool :=
  let n := nat_of_ascii a in
  (n =? 32)%nat || (n =? 9)%nat || (n =? 10)%nat || (n =? 13)%nat.

Fixpoint skip_ws (s : string) : string :=
  match s with
  | String a r => if is_ws a then skip_ws r else s
  | EmptyString => s
  end.

Definition digit_of (a : ascii) : option Z :=
  let n := nat_of_ascii a in
  if (48 <=? n)%nat && (n <=? 57)%nat then Some (Z.of_nat n - 48) else None.

(** The digits at the head of [s], read onto [acc]. *)
Fixpoint digits (acc : Z) (s : string) : Z * string :=
  match s with
  | String a r =>
      match digit_of a with
      | Some d => digits (10 * acc + d) r
      | None => (acc, s)
      end
  | EmptyString => (acc, s)
  end.

(** [0] or a digit sequence that does not start with [0]. *)
Definition natural (s : string) : outcome (Z * string) :=
  match s with
  | String a r =>
      match digit_of a with
      | Some 0 => Returns (0, r)
      | Some d => Returns (digits d r)
      | None => reject
      end
  | EmptyString => reject
  end.

Definition starts_fraction (s : string) : bool :=
  match s with
  | String a _ =>
      Ascii.eqb a "." || Ascii.eqb a "e" || Ascii.eqb a "E"
  | EmptyString => false
  end.

(** The most digits [int] converts from a decimal literal. *)
Definition int_max_str_digits : nat := 4300.

(** The digits of an integer literal, the sign apart: the conversion of
    the digits to [int] raises [ValueError] when they are too many. *)
Definition unsigned (s : string) : outcome (Z * string) :=
  '(n, r) ← natural s;
  if starts_fraction r then reject
  else if (int_max_str_digits <? String.length s - String.length r)%nat
  then Raises (OtherError "ValueError")
  else Returns (n, r).

Definition number (s : string) : outcome (json * string) :=
  match s with
  | String "-" r => '(n, r') ← unsigned r; Returns (JInt (- n), r')
  | _ => '(n, r) ← unsigned s; Returns (JInt n, r)
  end.

(** The characters up to the closing quote (code 34); a backslash
    (code 92) or a control character ends the attempt. *)
Fixpoint string_body (s : string) : outcome (string * string) :=
  match s with
  | String a r =>
      if Ascii.eqb a "034" then Returns (EmptyString, r)
      else if Ascii.eqb a "092" || (nat_of_ascii a <? 32)%nat then reject
      else '(body, r') ← string_body r; Returns (String a body, r')
  | EmptyString => reject
  end.

Definition literal (word : string) (v : json) (s : string)
  : outcome (json * string) :=
  if String.prefix word s
  then Returns (v, substring (String.length word) (String.length s) s)
  else reject.

Fixpoint value (fuel : nat) (s : string) : outcome (json * string) :=
  match fuel with
  | O => reject
  | S fuel =>
      match skip_ws s with
      | String "{" r =>
          match skip_ws r with
          | String "}" r' => Returns (JObj ∅, r')
          | _ => members fuel ∅ r
          end
      | String "[" r =>
          match skip_ws r with
          | String "]" r' => Returns (JArr [], r')
          | _ => elements fuel [] r
          end
      | String "034" r => '(str, r') ← string_body r; Returns (JStr str, r')
      | String "n" _ as t => literal "null" JNull t
      | String "t" _ as t => literal "true" (JBool true) t
      | String "f" _ as t => literal "false" (JBool false) t
      | t => number t
      end
  end
with members (fuel : nat) (acc : gmap string json) (s : string)
  : outcome (json * string) :=
  match fuel with
  | O => reject
  | S fuel =>
      match skip_ws s with
      | String "034" r =>
          '(key, r1) ← string_body r;
          match skip_ws r1 with
          | String ":" r2 =>
              '(v, r3) ← value fuel r2;
              match skip_ws r3 with
              | String "," r4 => members fuel (<[key := v]> acc) r4
              | String "}" r4 => Returns (JObj (<[key := v]> acc), r4)
              | _ => reject
              end
          | _ => reject
          end
      | _ => reject
      end
  end
with elements (fuel : nat) (acc : list json) (s : string)
  : outcome (json * string) :=
  match fuel with
  | O => reject
  | S fuel =>
      '(v, r1) ← value fuel s;
      match skip_ws r1 with
      | String "," r2 => elements fuel (acc ++ [v]) r2
      | String "]" r2 => Returns (JArr (acc ++ [v]), r2)
      | _ => reject
      end
  end.

(** The whole text must be one value, surrounded by white space only. *)
Definition loads (s : string) : outcome json :=
  '(v, rest) ← value (String.length s + 1) s;
  match skip_ws rest with
  | EmptyString => Returns v
  | _ => reject
  end.

Definition decoder : Decoder := loads.

End RefDecoder.

(** ** The orchestrator

    [PRReviewOrchestrator._run_async_impl] is an asynchronous generator that
    drives two generators of the agent framework, one after the other:
    [self.parallel_review.run_async(ctx)] and [self.tech_lead.run_async(ctx)].
    A generator is represented by the states in which it can be suspended
    and by what one resumption ([__anext__]) does from such a state, given
    the session store as its consumer left it. *)
Module Orchestrator.

(** The result of resuming a generator: it yields an event and suspends,
    or it is exhausted, or an exception leaves it. *)
Inductive resumed (G : Type) :=
  | Yielded (event : Event) (g : G) (state : session_state)
  | Exhausted (state : session_state)
  | Failed (e : exn).
Arguments Yielded {G} event g state.
Arguments Exhausted {G} state.
Arguments Failed {G} e.

(** Which of the two loops passed an event on. *)
Inductive source := ParallelReview | TechLead.

Section Generators.
(** The two generators of the framework. *)
Variables PG TG : Type.
Variable parallel_review_next : PG → session_state → resumed PG.
Variable tech_lead_next : TG → session_state → resumed TG.
(** The generator objects as [run_async(ctx)] creates them, not yet
    started. *)
Variable parallel_review_run : PG.
Variable tech_lead_run : TG.

(** Where the body of [_run_async_impl] is suspended: inside the first
    loop, inside the second loop, or after its end. *)
Inductive phase :=
  | Phase1 (g : PG)
  | Phase2 (g : TG)
  | Completed.

Definition phase2 (g : TG) (state : session_state) : resumed phase :=
  match tech_lead_next g state with
  | Yielded event g' state' => Yielded event (Phase2 g') state'
  | Exhausted state' => Exhausted state'
  | Failed e => Failed e
  end.

(** One resumption of [_run_async_impl].  When the first loop ends the
    body goes on (the logging in between yields nothing) and creates and
    starts the tech-lead generator. *)
Definition run_async_impl_next (ph : phase) (state : session_state)
  : resumed phase :=
  match ph with
  | Phase1 g =>
      match parallel_review_next g state with
      | Yielded event g' state' => Yielded event (Phase1 g') state'
      | Exhausted state' => phase2 tech_lead_run state'
      | Failed e => Failed e
      end
  | Phase2 g => phase2 g state
  | Completed => Exhausted state
  end.

Definition suspended_in (ph : phase) : source :=
  match ph with
  | Phase1 _ => ParallelReview
  | _ => TechLead
  end.

(** The events a consumer receives from a generator by resuming it again
    and again; between two resumptions the consumer may have changed the
    store, so each resumption starts from any store. *)
Inductive yields {G : Type} (next : G → session_state → resumed G)
  : G → list Event → G → Prop :=
  | yields_nil g : yields next g [] g
  | yields_cons g state event g' state' events g'' :
      next g state = Yielded event g' state' →
      yields next g' events g'' →
      yields next g (event :: events) g''.

(** The same for the orchestrator, each event with the loop it came
    through. *)
Inductive run : phase → list (source * Event) → phase → Prop :=
  | run_nil ph : run ph [] ph
  | run_cons ph state event ph' state' events ph'' :
      run_async_impl_next ph state = Yielded event ph' state' →
      run ph' events ph'' →
      run ph ((suspended_in ph', event) :: events) ph''.

(** Where a run stands with respect to the barrier, [g] being the state
    the parallel generator was left in and [after] the events that came
    through the second loop: with none of these the body is still in
    the first loop; otherwise the parallel generator was found exhausted
    in [g], leaving a store [state], and the first of these events was
    obtained by starting the tech-lead generator on that store. *)
Definition behind_barrier (g : PG) (after : list (source * Event))
    (ph : phase) : Prop :=
  match after with
  | [] => ph = Phase1 g
  | (_, event) :: _ =>
      (∃ g2, ph = Phase2 g2) ∧
      ∃ state0 state g' state',
        parallel_review_next g state0 = Exhausted state ∧
        tech_lead_next tech_lead_run state = Yielded event g' state'
  end.
End Generators.

End Orchestrator.

(** ** Vocabulary of the statements

    The notions used to state the properties below; each is read off the
    text it names in the source or the session store. *)

(** Some ['{'] of the text comes before some ['}']. *)
Definition has_braces (text : string) : Prop :=
  ∃ i j : nat, (i < j)%nat ∧
    String.get i text = Some "{"%char ∧ String.get j text = Some "}"%char.

(** The raw output a specialist left in the store, empty if none. *)
Definition review_text (state : session_state) (agent : LlmAgent) : string :=
  default EmptyString (state !! (lower (name agent) +:+ "_review")).

Definition no_output (state : session_state) (agent : LlmAgent) : bool :=
  String.eqb (review_text state agent) EmptyString.

(** The payload extracted from a specialist's output. *)
Definition payload_of `{Decoder} (state : session_state) (agent : LlmAgent)
  : outcome json :=
  parse_json_response (review_text state agent).

(** [pr_accessed] as the aggregator reads it, and its truth value. *)
Definition pr_accessed_of (d : gmap string json) : json :=
  default (JBool true) (d !! "pr_accessed").

Definition accessed (d : gmap string json) : bool := truthy (pr_accessed_of d).

(** The specialist produced output and its payload says the pull request
    was not accessed. *)
Definition reports_no_access `{Decoder} (state : session_state)
    (agent : LlmAgent) : bool :=
  negb (no_output state agent) &&
  match payload_of state agent with
  | Returns (JObj d) => negb (accessed d)
  | _ => false
  end.

(** The specialist is counted as a data-access issue. *)
Definition access_failed `{Decoder} (state : session_state)
    (agent : LlmAgent) : bool :=
  no_output state agent || reports_no_access state agent.

(** The line added to [data_access_issues] for a specialist, if any. *)
Definition issue_of `{Decoder} (state : session_state) (agent : LlmAgent)
  : list string :=
  if no_output state agent then [name agent +:+ ": No review output"]
  else if reports_no_access state agent
       then [name agent +:+ ": Could not access PR data"]
       else [].

(** The file list of a payload: [files_in_diff], else [files_reviewed],
    else the empty list. *)
Definition file_list (d : gmap string json) : json :=
  default (default (JArr []) (d !! "files_reviewed")) (d !! "files_in_diff").

Definition findings_of (d : gmap string json) : json :=
  default (JArr []) (d !! "findings").

(** The entry of [specialist_results] built from the payload [d] of an
    agent, [n] being the length of its findings. *)
Definition entry_of (owner repo : string) (pr_num : Z) (agent : LlmAgent)
    (d : gmap string json) (n : Z) : SpecialistReview :=
  {| sr_agent := name agent;
     sr_role := default (JStr (description agent)) (d !! "agent_role");
     sr_pr_accessed := pr_accessed_of d;
     sr_repository := default (JStr (owner +:+ "/" +:+ repo)) (d !! "repository");
     sr_pr_number := default (JInt pr_num) (d !! "pr_number");
     sr_summary := default (JStr EmptyString) (d !! "summary");
     sr_score := default (JInt 0) (d !! "score");
     sr_files_reviewed := file_list d;
     sr_recommendation := default (JStr "COMMENT") (d !! "recommendation");
     sr_rationale := default (JStr EmptyString) (d !! "rationale");
     sr_findings := findings_of d;
     sr_findings_count := n |}.

(** [e] is the entry of the agent: the one built from its extracted payload. *)
Definition entry_for `{Decoder} (owner repo : string) (pr_num : Z)
    (state : session_state) (agent : LlmAgent) (e : SpecialistReview) : Prop :=
  ∃ d n, payload_of state agent = Returns (JObj d) ∧
         py_len (findings_of d) = Returns n ∧
         e = entry_of owner repo pr_num agent d n.

(** The agent produced output, its payload does not deny access, and the
    path [f] is in its file list. *)
Definition contributes `{Decoder} (state : session_state) (agent : LlmAgent)
    (f : string) : Prop :=
  ∃ d items, no_output state agent = false ∧
             payload_of state agent = Returns (JObj d) ∧
             accessed d = true ∧
             py_iter (file_list d) = Returns items ∧
             JStr f ∈ items.

(** The sum of the findings counts of the entries. *)
Definition findings_total (reviews : list SpecialistReview) : Z :=
  foldr (λ e n, sr_findings_count e + n) 0 reviews.

(** The text the synthesis payload is extracted from: the tech lead's slot
    of the store, or else the last final response of the run. *)
Definition synthesis_text (events : list Event) (state : session_state) : string :=
  default (final_response_of events) (state !! "tech_lead_synthesis").

(** Applying a function to the result of a run that returned. *)
#[global] Instance outcome_fmap : FMap outcome := λ A B f m,
  match m with
  | Returns a => Returns (f a)
  | Raises e => Raises e
  end.

(** The zero-findings override applies to the collected data. *)
Definition override_applies (acc : Collected) : bool :=
  (findings_total (specialist_results acc) =? 0) &&
  String.eqb (data_status_of (issues acc)) "all_success".

(** The report [run_review] assembles from the collected specialist data
    and the synthesis payload [d]. *)
Definition report_from (owner repo : string) (pr_num : Z) (now : string)
    (acc : Collected) (d : gmap string json) : Report :=
  {| pr := owner +:+ "/" +:+ repo +:+ "#" +:+ pretty pr_num;
     repository := owner +:+ "/" +:+ repo;
     pr_number := pr_num;
     timestamp := now;
     data_access_status := data_status_of (issues acc);
     data_access_issues := issues acc;
     files_reviewed := all_files_reviewed acc;
     summary := default (JStr "Review completed") (d !! "summary");
     overall_score := default (JInt 0) (d !! "overall_score");
     auto_approve :=
       if override_applies acc then JBool true
       else default (JBool false) (d !! "auto_approve");
     congratulations_message :=
       default (JStr congratulations_default) (d !! "congratulations_message");
     final_decision :=
       if override_applies acc then JStr "APPROVE"
       else default (JStr "COMMENT") (d !! "final_decision");
     critical_blockers := default (JArr []) (d !! "critical_blockers");
     important_improvements := default (JArr []) (d !! "important_improvements");
     optional_suggestions := default (JArr []) (d !! "optional_suggestions");
     inline_comments := default (JArr []) (d !! "inline_comments");
     specialist_reviews := specialist_results acc;
     rationale := default (JStr EmptyString) (d !! "rationale");
     next_steps := default (JArr []) (d !! "next_steps") |}.

(** The agents that left some output, in the order of the loop. *)
Definition with_output (state : session_state) : list LlmAgent :=
  List.filter (λ agent, negb (no_output state agent)) specialist_agents.

(** ** Sample runs

    Session stores on which the model is run.  The texts are written with
    ['] where the store has a double quote. *)

Fixpoint dq (s : string) : string :=
  match s with
  | EmptyString => EmptyString
  | String a r => String (if Ascii.eqb a "'" then "034"%char else a) (dq r)
  end.

Definition clean_text : string :=
  dq "{'pr_accessed': true, 'files_in_diff': ['app.py'], 'score': 9, 'findings': [], 'recommendation': 'APPROVE'}".

Definition no_access_text : string :=
  dq "{'pr_accessed': false, 'error': 'Could not access PR data - tool call failed', 'files_in_diff': [], 'findings': [], 'recommendation': 'COMMENT'}".

(** A store in which the last four specialists found nothing; the product
    owner's slot holds [first] (no slot for [None]) and the tech lead's slot
    holds [synthesis]. *)
Definition sample_store (first : option string) (synthesis : string)
  : session_state :=
  let rest :=
    [ ("seniorengineer_review", clean_text);
      ("securityengineer_review", clean_text);
      ("devopsengineer_review", clean_text);
      ("qaengineer_review", clean_text);
      ("tech_lead_synthesis", synthesis) ] in
  list_to_map
    match first with
    | Some text => ("productowner_review", text) :: rest
    | None => rest
    end.

(** All five specialists found nothing. *)
Definition all_clean (synthesis : string) : session_state :=
  sample_store (Some clean_text) synthesis.

(** Two specialists could not access the pull request, three found nothing;
    the tech lead nevertheless answered [auto_approve: true]. *)
Definition two_without_access : session_state :=
  list_to_map
    [ ("productowner_review", no_access_text);
      ("seniorengineer_review", no_access_text);
      ("securityengineer_review", clean_text);
      ("devopsengineer_review", clean_text);
      ("qaengineer_review", clean_text);
      ("tech_lead_synthesis", dq "{'auto_approve': true, 'final_decision': 'APPROVE'}") ].

(** A tech lead that answered [COMMENT] without auto-approval. *)
Definition cautious_synthesis : string :=
  dq "{'summary': 'Fine', 'auto_approve': false, 'final_decision': 'COMMENT'}".

(** A specialist that denies access and yet lists a file. *)
Definition denied_with_files : string :=
  dq "{'pr_accessed': false, 'files_in_diff': ['a.py'], 'findings': []}".

(** A payload without [pr_accessed] and without [files_in_diff]. *)
Definition untagged_text : string :=
  dq "{'files_reviewed': ['x.py'], 'findings': []}".


(** No payload can be extracted from the text: it has no braces in order,
    or the decoder rejects what lies between them. *)
Definition nothing_to_extract `{Decoder} (text : string) : Prop :=
  ¬ has_braces text ∨
  json_loads (slice text (find text "{") (rfind text "}" + 1))
    = Raises JSONDecodeError.

(** A generator that replays a given list of events and leaves the store
    alone. *)
Definition replay (g : list Event) (state : session_state)
  : Orchestrator.resumed (list Event) :=
  match g with
  | event :: rest => Orchestrator.Yielded event rest state
  | [] => Orchestrator.Exhausted state
  end.


(** Two events of a sample run: the final response of a specialist and
    that of the tech lead. *)
Definition specialist_event : Event :=
  {| author := "QAEngineer"; is_final_response := true;
     content := Some [clean_text] |}.

Definition synthesis_event : Event :=
  {| author := "TechLead"; is_final_response := true;
     content := Some [cautious_synthesis] |}.


(** What the loop needs of a specialist: no output at all, or a dictionary
    payload whose findings have a length and, unless it denies access, whose
    file list can be iterated and holds hashable values only. *)
Definition reviewable `{Decoder} (state : session_state) (agent : LlmAgent)
  : Prop :=
  no_output state agent = true ∨
  ∃ d n, payload_of state agent = Returns (JObj d) ∧
         py_len (findings_of d) = Returns n ∧
         (accessed d = true →
          ∃ items, py_iter (file_list d) = Returns items ∧
                   Forall (λ x, hashable x = true) items).


(** The event changes nothing in the loop over the runner's events: it is
    not a final response, or it has no content, or no parts. *)
Definition passed_over (event : Event) : Prop :=
  is_final_response event = false ∨ content event = None ∨
  content event = Some [].


(** A generator that raises as soon as it is resumed. *)
Definition broken (g : unit) (state : session_state)
  : Orchestrator.resumed unit :=
  Orchestrator.Failed (OtherError "RuntimeError").


(** ** Tool discovery, configuration and the printed summary *)

(** The connection parameters of the toolset. *)
Record McpToolset := {
  url : string;
  headers : list (string * string)
}.

(** [get_github_mcp_tools], [token] being the value of
    [GITHUB_PERSONAL_ACCESS_TOKEN] ([None]: not set).  An unset or empty
    token raises [ValueError]. *)
Definition get_github_mcp_tools (token : option string) : outcome McpToolset :=
  match token with
  | Some (String a rest) =>
      Returns {| url := "https://api.githubcopilot.com/mcp/";
                 headers := [("Authorization", "Bearer " +:+ String a rest)] |}
  | _ => Raises (OtherError "ValueError")
  end.

(** [discover_mcp_tools]; [get_tools] stands for [toolset.get_tools()]
    followed by the extraction of the tool names.  An instance of
    [Exception] raised inside the [try] is logged and replaced by the empty
    list; [except Exception] lets anything else through, such as the
    [CancelledError] of a task cancelled at the [await]. *)
Definition discover_mcp_tools (get_tools : McpToolset → outcome (list string))
    (token : option string) : outcome (list string) :=
  match (toolset ← get_github_mcp_tools token; get_tools toolset) with
  | Returns tool_names => Returns tool_names
  | Raises e => if is_exception e then Returns [] else Raises e
  end.

(** The block of [main] that reads the pull request from the environment,
    up to the conversion of the number: each argument is the value of one
    variable ([None]: not set); an unset or empty value is false for Python. *)
Definition env_set (v : option string) : bool :=
  match v with
  | Some (String _ _) => true
  | _ => false
  end.

Definition or_else (v : option string) (dflt : string) : string :=
  match v with
  | Some (String a rest) => String a rest
  | _ => dflt
  end.

Definition pr_details (owner repo pr_number : option string)
  : option string * option string * option string :=
  if negb (env_set owner && env_set repo && env_set pr_number) then
    (Some (or_else owner "test-owner"), Some (or_else repo "test-repo"),
     Some (or_else pr_number "1"))
  else (owner, repo, pr_number).


(** [main], as far as its exit code goes.  [gcp] and [token] are the values
    of [GCP_PROJECT_ID] and [GITHUB_PERSONAL_ACCESS_TOKEN]; [get_tools] is
    as in [discover_mcp_tools]; [py_int] stands for [int] on a [str];
    [review] stands for everything inside the last [try]: the call of
    [run_review], the saving of the results and the printing of the
    summary.  Both [try] statements catch [Exception] only, and the
    conversion of the number is outside them.  The [print] calls outside
    the last [try] are taken not to raise. *)
Definition main (get_tools : McpToolset → outcome (list string))
    (py_int : string → outcome Z)
    (review : string → string → Z → outcome unit)
    (gcp token owner repo pr_number : option string) : outcome Z :=
  if negb (env_set gcp) then Returns 1
  else if negb (env_set token) then Returns 1
  else
    available_tools ← match discover_mcp_tools get_tools token with
                       | Returns available_tools => Returns available_tools
                       | Raises e =>
                           if is_exception e then Returns [] else Raises e
                       end;
    let '(owner, repo, pr_number) := pr_details owner repo pr_number in
    pr_number ← py_int (default EmptyString pr_number);
    match review (default EmptyString owner) (default EmptyString repo)
            pr_number with
    | Returns _ => Returns 0
    | Raises e => if is_exception e then Returns 1 else Raises e
    end.


(** * Properties *)

(** ** Searching a string *)

Lemma find_from_found c s i k :
  find_from c s i = k → k ≠ -1 → 0 ≤ i →
  ∃ n : nat, k = i + Z.of_nat n ∧ String.get n s = Some c ∧
             ∀ m : nat, (m < n)%nat → String.get m s ≠ Some c.
Proof.
  revert i. induction s as [|a r IH]; intros i Hk Hne Hi; simpl in Hk.
  - congruence.
  - destruct (Ascii.eqb_spec a c) as [->|Hac].
    + exists 0%nat. split; [lia|]. split; [done|]. intros m Hm. lia.
    + destruct (IH (i + 1) Hk Hne ltac:(lia)) as (n & -> & Hget & Hbefore).
      exists (S n). split; [lia|]. split; [done|].
      intros [|m] Hm; simpl; [congruence|]. apply Hbefore. lia.
Qed.

Lemma find_from_absent c s i :
  find_from c s i = -1 → 0 ≤ i → ∀ n, String.get n s ≠ Some c.
Proof.
  revert i. induction s as [|a r IH]; intros i Hk Hi n; simpl in *; [by destruct n|].
  destruct (Ascii.eqb_spec a c) as [->|Hac]; [lia|].
  destruct n as [|n]; simpl; [congruence|]. by eapply IH; [done|lia].
Qed.

Lemma rfind_from_spec c s i last :
  (rfind_from c s i last = last ∧ ∀ n, String.get n s ≠ Some c) ∨
  (∃ n : nat, rfind_from c s i last = i + Z.of_nat n ∧ String.get n s = Some c ∧
              ∀ m : nat, (n < m)%nat → String.get m s ≠ Some c).
Proof.
  revert i last. induction s as [|a r IH]; intros i last; simpl.
  - left. split; [done|]. by intros [|n].
  - destruct (IH (i + 1) (if Ascii.eqb a c then i else last))
      as [[Hlast Hnone]|(n & Hn & Hget & Hafter)].
    + destruct (Ascii.eqb_spec a c) as [->|Hac].
      * right. exists 0%nat. split; [lia|]. split; [done|].
        intros [|m] Hm; [lia|]. apply Hnone.
      * left. split; [done|]. intros [|n]; simpl; [congruence|]. apply Hnone.
    + right. exists (S n). split; [lia|]. split; [done|].
      intros [|m] Hm; [lia|]. simpl. apply Hafter. lia.
Qed.

(** The test guarding the call of the decoder holds exactly when the text
    has an opening brace followed, somewhere, by a closing one; the slice
    then runs from the first ['{'] to the last ['}']. *)
Lemma extract_guard text :
  (0 <=? find text "{") && (find text "{" <? rfind text "}" + 1) = true ↔
  has_braces text.
Proof.
  unfold find, rfind. split.
  - intros [Hs He]%andb_prop. apply Z.leb_le in Hs. apply Z.ltb_lt in He.
    destruct (find_from_found "{" text 0 _ eq_refl) as (i & Hi & Hgi & _);
      [lia|lia|].
    destruct (rfind_from_spec "}" text 0 (-1)) as [[Hl _]|(j & Hj & Hgj & _)];
      [lia|].
    exists i, j. split; [|done].
    destruct (decide (i = j)) as [->|]; [congruence|lia].
  - intros (i & j & Hij & Hgi & Hgj).
    destruct (decide (find_from "{" text 0 = -1)) as [Hnone|Hsome].
    { by destruct (find_from_absent _ _ _ Hnone ltac:(lia) i). }
    destruct (find_from_found "{" text 0 _ eq_refl Hsome) as (i' & Hi' & _ & Hfirst);
      [lia|].
    destruct (rfind_from_spec "}" text 0 (-1)) as [[_ Hno]|(j' & Hj' & _ & Hlast)].
    { by destruct (Hno j). }
    assert (i' ≤ i)%nat.
    { destruct (decide (i' ≤ i)%nat); [done|]. destruct (Hfirst i); [lia|done]. }
    assert (j ≤ j')%nat.
    { destruct (decide (j ≤ j')%nat); [done|]. destruct (Hlast j); [lia|done]. }
    apply andb_true_intro. split; [apply Z.leb_le|apply Z.ltb_lt]; lia.
Qed.

(** ** The response extractor *)

Section ExtractorFacts.
Context `{Decoder}.

Lemma parse_no_braces text :
  ¬ has_braces text →
  parse_json_response text = Returns (fallback_payload text).
Proof.
  intros Hno. unfold parse_json_response.
  destruct ((0 <=? find text "{") && (find text "{" <? rfind text "}" + 1))
    eqn:Hguard; [|done].
  by apply extract_guard in Hguard.
Qed.

Lemma parse_decode_error text :
  json_loads (slice text (find text "{") (rfind text "}" + 1))
    = Raises JSONDecodeError →
  parse_json_response text = Returns (fallback_payload text).
Proof.
  intros Herr. unfold parse_json_response.
  destruct (_ && _); [|done]. by rewrite Herr.
Qed.



End ExtractorFacts.



(** ** Python sets of file paths *)

Lemma py_eq_refl x : hashable x = true → py_eq x x = true.
Proof.
  destruct x as [|b|n|f|s| |]; simpl; intros Hh; try done.
  - by destruct b.
  - apply Z.eqb_refl.
  - destruct f as [?|b| |neg m e]; simpl; try done.
    + by destruct b.
    + unfold dyadic_eqb. rewrite Z.leb_refl, Z.sub_diag. apply Z.eqb_eq. lia.
  - apply String.eqb_refl.
Qed.

Lemma set_mem_elem x s : hashable x = true → x ∈ s → set_mem x s = true.
Proof.
  intros Hx Hin. apply existsb_exists. exists x.
  split; [by apply list_elem_of_In|by apply py_eq_refl].
Qed.

Lemma set_mem_str f s : set_mem (JStr f) s = true ↔ JStr f ∈ s.
Proof.
  split; [|by apply set_mem_elem].
  intros (z & Hin & Heq)%existsb_exists. apply list_elem_of_In in Hin.
  destruct z; simpl in Heq; try done.
  by apply String.eqb_eq in Heq as <-.
Qed.

Lemma set_add_str s x s' f :
  set_add s x = Returns s' → JStr f ∈ s' ↔ JStr f ∈ s ∨ JStr f = x.
Proof.
  unfold set_add. destruct (hashable x) eqn:Hh; [|done].
  destruct (set_mem x s) eqn:Hmem; intros [= <-].
  - split; [by left|]. intros [Hin| <-]; [done|]. by apply set_mem_str.
  - rewrite elem_of_app, list_elem_of_singleton. done.
Qed.

Lemma set_add_nodup s x s' : set_add s x = Returns s' → NoDup s → NoDup s'.
Proof.
  unfold set_add. destruct (hashable x) eqn:Hh; [|done].
  destruct (set_mem x s) eqn:Hmem; intros [= <-] Hnd; [done|].
  apply NoDup_app. split; [done|]. split; [|apply NoDup_singleton].
  intros y Hy ->%list_elem_of_singleton.
  by rewrite (set_mem_elem _ _ Hh Hy) in Hmem.
Qed.

Lemma set_add_all_str s items s' f :
  set_add_all s items = Returns s' → JStr f ∈ s' ↔ JStr f ∈ s ∨ JStr f ∈ items.
Proof.
  revert s. induction items as [|x rest IH]; intros s; simpl.
  - intros [= <-]. rewrite elem_of_nil. tauto.
  - destruct (set_add s x) as [s1|] eqn:Hadd; [|done]. simpl.
    intros Hrest%IH. rewrite Hrest, (set_add_str _ _ _ _ Hadd), elem_of_cons.
    intuition congruence.
Qed.

Lemma set_add_all_nodup s items s' :
  set_add_all s items = Returns s' → NoDup s → NoDup s'.
Proof.
  revert s. induction items as [|x rest IH]; intros s; simpl.
  - by intros [= <-].
  - destruct (set_add s x) as [s1|] eqn:Hadd; [|done]. simpl.
    intros Hrest Hnd. eapply IH; [done|]. by eapply set_add_nodup.
Qed.

(** ** One turn of the loop over the specialists *)

Lemma py_get_returns v key dflt x :
  py_get v key dflt = Returns x →
  ∃ d, v = JObj d ∧ x = default dflt (d !! key).
Proof. destruct v; simpl; try done. intros [= <-]. by eexists. Qed.

Section AggregatorFacts.
Context `{Decoder}.
Variables (owner repo : string) (pr_num : Z).

Lemma review_agent_empty state acc agent :
  no_output state agent = true →
  review_agent owner repo pr_num state acc agent = Returns
    {| specialist_results := specialist_results acc;
       all_files_reviewed := all_files_reviewed acc;
       issues := issues acc ++ [name agent +:+ ": No review output"] |}.
Proof.
  unfold no_output, review_text, review_agent. by intros ->.
Qed.

(** What a turn that returns has done. *)
Lemma review_agent_returns state acc agent acc' :
  review_agent owner repo pr_num state acc agent = Returns acc' →
  (no_output state agent = true ∧
   specialist_results acc' = specialist_results acc ∧
   all_files_reviewed acc' = all_files_reviewed acc ∧
   issues acc' = issues acc ++ [name agent +:+ ": No review output"])
  ∨
  (no_output state agent = false ∧
   ∃ d n, payload_of state agent = Returns (JObj d) ∧
     py_len (findings_of d) = Returns n ∧
     specialist_results acc' =
       specialist_results acc ++ [entry_of owner repo pr_num agent d n] ∧
     if accessed d
     then set_update (all_files_reviewed acc) (file_list d)
            = Returns (all_files_reviewed acc') ∧
          issues acc' = issues acc
     else all_files_reviewed acc' = all_files_reviewed acc ∧
          issues acc' =
            issues acc ++ [name agent +:+ ": Could not access PR data"]).
Proof.
  intros Hrun. destruct (no_output state agent) eqn:Hout.
  { rewrite review_agent_empty in Hrun by done. injection Hrun as <-. by left. }
  right. split; [done|].
  unfold review_agent, payload_of in *. unfold no_output in Hout.
  fold (review_text state agent) in Hrun. rewrite Hout in Hrun.
  unfold mbind, outcome_bind in Hrun. simpl in Hrun.
  destruct (parse_json_response _) as [v|]; [|done].
  destruct v as [| | | | | |d]; try done. simpl in Hrun.
  exists d. fold (pr_accessed_of d) (file_list d) (findings_of d) in Hrun.
  fold (accessed d) in Hrun. destruct (accessed d); simpl in Hrun.
  - destruct (set_update _ _) as [files|]; [|done].
    destruct (py_len _) as [n|]; [|done].
    injection Hrun as <-. by exists n.
  - destruct (py_len _) as [n|]; [|done].
    injection Hrun as <-. by exists n.
Qed.

(** The same, in the vocabulary of the statements. *)
Lemma review_agent_step state acc agent acc' :
  review_agent owner repo pr_num state acc agent = Returns acc' →
  (∃ entries,
     specialist_results acc' = specialist_results acc ++ entries ∧
     Forall2 (entry_for owner repo pr_num state)
       (List.filter (λ a, negb (no_output state a)) [agent]) entries) ∧
  issues acc' = issues acc ++ issue_of state agent ∧
  (NoDup (all_files_reviewed acc) → NoDup (all_files_reviewed acc')) ∧
  (∀ f, JStr f ∈ all_files_reviewed acc' ↔
        JStr f ∈ all_files_reviewed acc ∨ contributes state agent f).
Proof.
  intros [(Hout & Hres & Hfiles & Hiss)
         |(Hout & d & n & Hpay & Hlen & Hres & Hacc)]%review_agent_returns.
  - unfold issue_of, contributes. simpl. rewrite Hout, Hfiles. simpl.
    split; [exists []; by rewrite app_nil_r|]. split; [done|].
    split; [done|]. intros f. split; [by left|].
    intros [|(? & ? & ? & _)]; [done|congruence].
  - assert (reports_no_access state agent = negb (accessed d)) as Hrep.
    { unfold reports_no_access. by rewrite Hout, Hpay. }
    unfold issue_of. simpl. rewrite Hout, Hrep. simpl.
    split.
    { eexists. split; [done|]. repeat constructor. by exists d, n. }
    destruct (accessed d) eqn:Hd; simpl.
    + destruct Hacc as [Hupd Hiss]. split; [by rewrite app_nil_r|].
      unfold set_update, mbind, outcome_bind in Hupd.
      destruct (py_iter (file_list d)) as [items|] eqn:Hiter; [|done].
      split; [by eapply set_add_all_nodup|].
      intros f. rewrite (set_add_all_str _ _ _ _ Hupd).
      unfold contributes. split.
      * intros [|Hin]; [by left|]. right. by exists d, items.
      * intros [|(d' & items' & _ & Hpay' & _ & Hiter' & Hin)]; [by left|].
        right. congruence.
    + destruct Hacc as [-> ->]. split; [done|]. split; [done|].
      intros f. split; [by left|].
      intros [|(d' & items' & _ & Hpay' & Hacc' & _)]; [done|]. congruence.
Qed.

(** What a loop that returns has collected. *)
Lemma review_agents_returns state agents acc acc' :
  review_agents owner repo pr_num state acc agents = Returns acc' →
  (∃ entries,
     specialist_results acc' = specialist_results acc ++ entries ∧
     Forall2 (entry_for owner repo pr_num state)
       (List.filter (λ a, negb (no_output state a)) agents) entries) ∧
  issues acc' = issues acc ++ flat_map (issue_of state) agents ∧
  (NoDup (all_files_reviewed acc) → NoDup (all_files_reviewed acc')) ∧
  (∀ f, JStr f ∈ all_files_reviewed acc' ↔
        JStr f ∈ all_files_reviewed acc ∨
        ∃ agent, agent ∈ agents ∧ contributes state agent f).
Proof.
  revert acc. induction agents as [|agent rest IH]; intros acc; simpl.
  - intros [= <-]. split; [exists []; by rewrite app_nil_r|].
    split; [by rewrite app_nil_r|]. split; [done|].
    intros f. split; [by left|]. intros [|(? & []%elem_of_nil & _)]; done.
  - unfold mbind, outcome_bind.
    destruct (review_agent _ _ _ _ _ _) as [acc1|] eqn:Hstep; [|done].
    apply review_agent_step in Hstep
      as ((e1 & Hres1 & Hent1) & Hiss1 & Hnd1 & Hfiles1).
    intros ((e2 & Hres2 & Hent2) & Hiss2 & Hnd2 & Hfiles2)%IH.
    split; [|split; [|split]].
    + exists (e1 ++ e2). rewrite Hres2, Hres1, app_assoc. split; [done|].
      simpl in Hent1. destruct (negb (no_output state agent)).
      * change (agent :: ?l) with ([agent] ++ l). by apply Forall2_app.
      * by apply Forall2_nil_inv_l in Hent1 as ->.
    + by rewrite Hiss2, Hiss1, app_assoc.
    + auto.
    + intros f. rewrite Hfiles2, Hfiles1. split.
      * intros [[|]|(a & Ha & Hc)]; [by left| |].
        -- right. exists agent. split; [left|done].
        -- right. exists a. split; [by right|done].
      * intros [|(a & [->|Ha]%elem_of_cons & Hc)]; [by left; left| |].
        -- by left; right.
        -- right. by exists a.
Qed.

(** The loop computed the length of every entry's findings, so the sum
    taken afterwards is defined and is the sum of the recorded counts. *)
Lemma total_findings_counts state agents entries :
  Forall2 (entry_for owner repo pr_num state) agents entries →
  total_findings_of entries = Returns (findings_total entries).
Proof.
  induction 1 as [|agent e agents entries (d & n & _ & Hlen & ->) _ IH];
    simpl; [done|].
  unfold mbind, outcome_bind. by rewrite Hlen, IH.
Qed.
End AggregatorFacts.

(** ** The whole aggregation *)

Section ReportFacts.
Context `{Decoder}.
Variables (owner repo : string) (pr_num : Z).

Lemma collect_returns state acc :
  collect owner repo pr_num state = Returns acc →
  Forall2 (entry_for owner repo pr_num state) (with_output state)
    (specialist_results acc) ∧
  issues acc = flat_map (issue_of state) specialist_agents ∧
  NoDup (all_files_reviewed acc) ∧
  (∀ f, JStr f ∈ all_files_reviewed acc ↔
        ∃ agent, agent ∈ specialist_agents ∧ contributes state agent f).
Proof.
  intros Hloop. unfold collect in Hloop.
  apply review_agents_returns in Hloop
    as ((entries & Hres & Hent) & Hiss & Hnd & Hfiles).
  cbn [specialist_results all_files_reviewed issues app] in *.
  rewrite Hres, Hiss. split; [done|]. split; [done|].
  split; [apply Hnd, NoDup_nil_2|].
  intros f. rewrite Hfiles, elem_of_nil. tauto.
Qed.

(** [run_review] fails exactly when the loop over the specialists fails
    or the synthesis text yields something that is not a dictionary;
    otherwise it returns [report_from]. *)
Lemma run_review_unfold now events state :
  run_review owner repo pr_num now events state =
  match collect owner repo pr_num state with
  | Returns acc =>
      match parse_json_response (synthesis_text events state) with
      | Returns (JObj d) => Returns (report_from owner repo pr_num now acc d)
      | Returns _ => Raises AttributeError
      | Raises e => Raises e
      end
  | Raises e => Raises e
  end.
Proof.
  unfold run_review, mbind, outcome_bind. fold (synthesis_text events state).
  destruct (collect _ _ _ _) as [acc|] eqn:Hacc; [|done].
  apply collect_returns in Hacc as (Hent & _).
  destruct (parse_json_response _) as [v|]; [|done].
  destruct v; try done. simpl.
  by rewrite (total_findings_counts _ _ _ _ _ _ Hent).
Qed.

Lemma run_review_returns now events state r :
  run_review owner repo pr_num now events state = Returns r →
  ∃ acc d, collect owner repo pr_num state = Returns acc ∧
           parse_json_response (synthesis_text events state) = Returns (JObj d) ∧
           r = report_from owner repo pr_num now acc d.
Proof.
  rewrite run_review_unfold.
  destruct (collect _ _ _ _) as [acc|]; [|done].
  destruct (parse_json_response _) as [v|]; [|done].
  destruct v; try done. intros [= <-]. by eexists _, _.
Qed.
End ReportFacts.

(** ** Counting the specialists that failed *)

Lemma filter_length_zero {A} (f : A → bool) (l : list A) :
  length (List.filter f l) = 0%nat ↔ ∀ x, x ∈ l → f x = false.
Proof.
  induction l as [|a l IH]; simpl.
  - split; [intros _ x []%elem_of_nil|done].
  - destruct (f a) eqn:Ha; simpl.
    + split; [done|]. intros Hall. specialize (Hall a (list_elem_of_here _ _)).
      congruence.
    + rewrite IH. split.
      * intros Hall x [->|Hx]%elem_of_cons; auto.
      * intros Hall x Hx. apply Hall. by right.
Qed.

Lemma filter_length_all {A} (f : A → bool) (l : list A) :
  length (List.filter f l) = length l ↔ ∀ x, x ∈ l → f x = true.
Proof.
  induction l as [|a l IH]; simpl.
  - split; [intros _ x []%elem_of_nil|done].
  - pose proof (List.filter_length_le f l) as Hle.
    destruct (f a) eqn:Ha; simpl.
    + split.
      * intros Hlen x [->|Hx]%elem_of_cons; [done|]. apply IH; [lia|done].
      * intros Hall. f_equal. apply IH. intros x Hx. apply Hall. by right.
    + split; [lia|]. intros Hall.
      specialize (Hall a (list_elem_of_here _ _)). congruence.
Qed.

Section StatusFacts.
Context `{Decoder}.

Lemma issues_length state agents :
  length (flat_map (issue_of state) agents) =
  length (List.filter (access_failed state) agents).
Proof.
  induction agents as [|agent rest IH]; simpl; [done|].
  rewrite length_app, IH. unfold issue_of, access_failed.
  destruct (no_output state agent); simpl; [done|].
  by destruct (reports_no_access state agent).
Qed.

Lemma data_status_success state :
  data_status_of (flat_map (issue_of state) specialist_agents) = "all_success" ↔
  ∀ agent, agent ∈ specialist_agents → access_failed state agent = false.
Proof.
  rewrite <- filter_length_zero, <- issues_length. unfold data_status_of.
  destruct (length (flat_map _ _)) as [|n]; simpl; [done|].
  split; [|done]. by destruct (n =? 4)%nat.
Qed.

Lemma data_status_failed state :
  data_status_of (flat_map (issue_of state) specialist_agents) = "all_failed" ↔
  ∀ agent, agent ∈ specialist_agents → access_failed state agent = true.
Proof.
  rewrite <- filter_length_all, <- issues_length. unfold data_status_of.
  destruct (length (flat_map _ _)) as [|n]; simpl; [done|].
  destruct (Nat.eqb_spec n 4) as [->|Hn]; [done|].
  split; [done|]. intros [= ->]. done.
Qed.
End StatusFacts.

(** C3.  The status of a report is [all_success] exactly when no specialist
    left an empty output and none produced a payload whose [pr_accessed] is
    false; it is [all_failed] exactly when each of the five is counted as an
    issue; it is [partial_failure] in every other case.  A payload "reports
    pr_accessed = false" when the aggregator's test [not pr_accessed] holds:
    for a boolean field that is the value [false], and an absent field counts
    as [true]. *)
Theorem data_access_status_spec `{Decoder} (owner repo : string) (pr_num : Z)
    (now : string) (events : list Event) (state : session_state) (r : Report) :
  run_review owner repo pr_num now events state = Returns r →
  (data_access_status r = "all_success" ↔
     ∀ agent, agent ∈ specialist_agents →
       no_output state agent = false ∧ reports_no_access state agent = false) ∧
  (data_access_status r = "all_failed" ↔
     ∀ agent, agent ∈ specialist_agents → access_failed state agent = true) ∧
  (data_access_status r = "partial_failure" ↔
     data_access_status r ≠ "all_success" ∧
     data_access_status r ≠ "all_failed") ∧
  (∀ agent d b, no_output state agent = false →
     payload_of state agent = Returns (JObj d) →
     d !! "pr_accessed" = Some (JBool b) →
     reports_no_access state agent = negb b) ∧
  (∀ agent d, no_output state agent = false →
     payload_of state agent = Returns (JObj d) →
     d !! "pr_accessed" = None →
     reports_no_access state agent = false).
Proof.
  intros (acc & d & Hacc & _ & ->)%run_review_returns.
  apply collect_returns in Hacc as (_ & Hiss & _). simpl. rewrite Hiss.
  split; [|split; [|split; [|split]]].
  - rewrite data_status_success. unfold access_failed.
    split; intros Hall agent Hin; specialize (Hall agent Hin).
    + by apply orb_false_elim in Hall.
    + destruct Hall as [-> ->]. done.
  - apply data_status_failed.
  - unfold data_status_of. destruct (_ =? 0)%nat; [by split; [|intros []]|].
    destruct (_ =? _)%nat; [by split; [|intros []]|done].
  - intros agent d' b Hout Hpay Hb. unfold reports_no_access, accessed, pr_accessed_of.
    by rewrite Hout, Hpay, Hb.
  - intros agent d' Hout Hpay Hb. unfold reports_no_access, accessed, pr_accessed_of.
    by rewrite Hout, Hpay, Hb.
Qed.

(** Running the model on a sample store: the goal [∃ r, run = Returns r ∧ _]
    is reduced to its second part, with the run kept as a hypothesis and the
    report it evaluates to named. *)
Ltac run_sample Hrun Hval :=
  match goal with
  | |- ∃ r, ?run = Returns r ∧ _ =>
      let r := fresh "r" in
      destruct run as [r|] eqn:Hrun;
      [ exists r; split; [reflexivity|];
        pose proof Hrun as Hval; vm_compute in Hval; injection Hval as Hval
      | exfalso; vm_compute in Hrun; discriminate Hrun ]
  end.

(** Closing a goal about a sample run by evaluation. *)
Ltac by_value Hval := rewrite <- Hval; repeat split; reflexivity.
Ltac computed := vm_compute; reflexivity.

Lemma data_access_status_spec_witness :
  ∃ r, @run_review RefDecoder.decoder "octo" "demo" 7 "2025-01-01T00:00:00" []
         (all_clean cautious_synthesis) = Returns r ∧
       ∀ agent, agent ∈ specialist_agents →
         no_output (all_clean cautious_synthesis) agent = false ∧
         @reports_no_access RefDecoder.decoder (all_clean cautious_synthesis) agent
           = false.
Proof.
  run_sample Hrun Hval.
  destruct (@data_access_status_spec RefDecoder.decoder _ _ _ _ _ _ _ Hrun)
    as ((Hall & _) & _).
  apply Hall. by_value Hval.
Defined.

(** ** The override *)

(** C1, as stated, fails: with two specialists reporting [pr_accessed:
    false], three reporting no findings and a tech lead that answered
    [auto_approve: true], the report has status [partial_failure], no findings
    at all, and [auto_approve = true]. *)
Lemma auto_approve_counterexample :
  ∃ r, @run_review RefDecoder.decoder "octo" "demo" 7 "2025-01-01T00:00:00" []
         two_without_access = Returns r ∧
       data_access_status r = "partial_failure" ∧
       findings_total (specialist_reviews r) = 0 ∧
       auto_approve r = JBool true.
Proof. run_sample Hrun Hval. by_value Hval. Qed.

(** C1, amended.  The [auto_approve] of a report is [true] when the findings
    total 0 and the status is [all_success], and is otherwise the synthesis
    payload's own [auto_approve] ([false] when it has none).  So it is true
    only if the findings total 0 with status [all_success] or the synthesis
    payload itself said so; with a status other than [all_success] the
    report repeats the synthesis payload. *)
Theorem auto_approve_spec `{Decoder} (owner repo : string) (pr_num : Z)
    (now : string) (events : list Event) (state : session_state) (r : Report) :
  run_review owner repo pr_num now events state = Returns r →
  ∃ d, parse_json_response (synthesis_text events state) = Returns (JObj d) ∧
    let said := default (JBool false) (d !! "auto_approve") in
    auto_approve r =
      (if (findings_total (specialist_reviews r) =? 0) &&
          String.eqb (data_access_status r) "all_success"
       then JBool true else said) ∧
    (auto_approve r = JBool true →
       (findings_total (specialist_reviews r) = 0 ∧
        data_access_status r = "all_success") ∨ said = JBool true) ∧
    (data_access_status r ≠ "all_success" → auto_approve r = said) ∧
    (findings_total (specialist_reviews r) ≠ 0 → auto_approve r = said).
Proof.
  intros (acc & d & _ & Hsyn & ->)%run_review_returns.
  exists d. split; [done|]. simpl. unfold override_applies.
  destruct (Z.eqb_spec (findings_total (specialist_results acc)) 0) as [Hz|Hnz];
    destruct (String.eqb_spec (data_status_of (issues acc)) "all_success")
      as [Hs|Hns]; simpl; repeat split; try done; auto.
Qed.

Lemma auto_approve_spec_witness :
  ∃ r, @run_review RefDecoder.decoder "octo" "demo" 7 "2025-01-01T00:00:00" []
         two_without_access = Returns r ∧
       ∃ d, @parse_json_response RefDecoder.decoder
              (synthesis_text [] two_without_access) = Returns (JObj d) ∧
            auto_approve r = default (JBool false) (d !! "auto_approve").
Proof.
  run_sample Hrun Hval.
  destruct (@auto_approve_spec RefDecoder.decoder _ _ _ _ _ _ _ Hrun)
    as (d & Hd & _ & _ & Hst & _).
  exists d. split; [exact Hd|]. apply Hst. rewrite <- Hval.
  vm_compute. discriminate.
Defined.

(** C2.  When the findings of the extracted specialist payloads total 0 and
    the status is [all_success], the report has [auto_approve = true] and
    [final_decision = "APPROVE"], whatever the synthesis payload said. *)
Theorem zero_findings_override `{Decoder} (owner repo : string) (pr_num : Z)
    (now : string) (events : list Event) (state : session_state) (r : Report) :
  run_review owner repo pr_num now events state = Returns r →
  findings_total (specialist_reviews r) = 0 →
  data_access_status r = "all_success" →
  auto_approve r = JBool true ∧ final_decision r = JStr "APPROVE".
Proof.
  intros (acc & d & _ & _ & ->)%run_review_returns. simpl.
  unfold override_applies. by intros -> ->.
Qed.

(** All five specialists clean, a tech lead that answered [auto_approve:
    false] and [COMMENT]: the report approves. *)
Lemma zero_findings_override_witness :
  ∃ r, @run_review RefDecoder.decoder "octo" "demo" 7 "2025-01-01T00:00:00" []
         (all_clean cautious_synthesis) = Returns r ∧
       @parse_json_response RefDecoder.decoder cautious_synthesis
         = Returns (JObj (<["summary" := JStr "Fine"]>
                         (<["auto_approve" := JBool false]>
                         (<["final_decision" := JStr "COMMENT"]> ∅)))) ∧
       auto_approve r = JBool true ∧ final_decision r = JStr "APPROVE".
Proof.
  run_sample Hrun Hval. split; [computed|].
  apply (@zero_findings_override RefDecoder.decoder _ _ _ _ _ _ _ Hrun);
    by_value Hval.
Defined.

(** ** The files reviewed *)

(** C5, as stated, fails: a specialist whose payload has [pr_accessed:
    false] and [files_in_diff: ["a.py"]] reports a file that the report does
    not list. *)
Lemma files_union_counterexample :
  let state := sample_store (Some denied_with_files) cautious_synthesis in
  ∃ r, @run_review RefDecoder.decoder "octo" "demo" 7 "2025-01-01T00:00:00" []
         state = Returns r ∧
       (∃ d, @payload_of RefDecoder.decoder state product_owner = Returns (JObj d) ∧
             d !! "files_in_diff" = Some (JArr [JStr "a.py"])) ∧
       files_reviewed r = [JStr "app.py"] ∧
       JStr "a.py" ∉ files_reviewed r.
Proof.
  intros state. subst state. run_sample Hrun Hval. rewrite <- Hval.
  split; [eexists; split; computed|].
  split; [reflexivity|]. cbn [files_reviewed].
  intros [[=]|[]%elem_of_nil]%elem_of_cons.
Qed.

(** C5, amended.  The [files_reviewed] of a report lists each path once, and
    lists exactly the paths found in the file list of some specialist that
    produced output and whose payload does not say [pr_accessed: false]; the
    file list of a payload is its [files_in_diff], or its [files_reviewed]
    when it has no [files_in_diff]. *)
Theorem files_reviewed_union `{Decoder} (owner repo : string) (pr_num : Z)
    (now : string) (events : list Event) (state : session_state) (r : Report) :
  run_review owner repo pr_num now events state = Returns r →
  NoDup (files_reviewed r) ∧
  ∀ f, JStr f ∈ files_reviewed r ↔
       ∃ agent, agent ∈ specialist_agents ∧ contributes state agent f.
Proof.
  intros (acc & d & Hacc & _ & ->)%run_review_returns.
  by apply collect_returns in Hacc as (_ & _ & Hnd & Hfiles).
Qed.

Lemma files_reviewed_union_witness :
  ∃ r, @run_review RefDecoder.decoder "octo" "demo" 7 "2025-01-01T00:00:00" []
         (all_clean cautious_synthesis) = Returns r ∧
       NoDup (files_reviewed r) ∧ JStr "app.py" ∈ files_reviewed r.
Proof.
  run_sample Hrun Hval.
  destruct (@files_reviewed_union RefDecoder.decoder _ _ _ _ _ _ _ Hrun)
    as [Hnd Hfiles].
  split; [exact Hnd|]. apply Hfiles. exists qa_engineer.
  split; [repeat constructor|].
  eexists _, _. split; [computed|]. split; [computed|].
  split; [computed|]. split; [computed|]. left.
Defined.

(** ** The synthesis fields *)




(** ** The entries of the specialists *)

Lemma specialist_cases agent :
  agent ∈ specialist_agents →
  agent = product_owner ∨ agent = senior_engineer ∨
  agent = security_engineer ∨ agent = devops_engineer ∨ agent = qa_engineer.
Proof.
  unfold specialist_agents. rewrite !elem_of_cons, elem_of_nil. tauto.
Qed.

Ltac each_specialist H :=
  apply specialist_cases in H as [->|[->|[->|[->| ->]]]].

(** The five names are distinct, and so are the lines they give rise to. *)
Lemma specialist_name_inj a b :
  a ∈ specialist_agents → b ∈ specialist_agents → name a = name b → a = b.
Proof. intros Ha Hb. each_specialist Ha; each_specialist Hb; by intros [=]. Qed.

Lemma issue_line_inj a b suffix :
  a ∈ specialist_agents → b ∈ specialist_agents →
  name a +:+ suffix = name b +:+ suffix → a = b.
Proof.
  intros Ha Hb. each_specialist Ha; each_specialist Hb; simpl; by intros [=].
Qed.

Lemma issue_lines_differ a b :
  a ∈ specialist_agents → b ∈ specialist_agents →
  name a +:+ ": No review output" ≠ name b +:+ ": Could not access PR data".
Proof.
  intros Ha Hb. each_specialist Ha; each_specialist Hb; simpl; by intros [=].
Qed.

Section EntryFacts.
Context `{Decoder}.
Variables (owner repo : string) (pr_num : Z).

Lemma issue_of_elem state line :
  line ∈ flat_map (issue_of state) specialist_agents ↔
  ∃ agent, agent ∈ specialist_agents ∧ line ∈ issue_of state agent.
Proof.
  rewrite list_elem_of_In, in_flat_map.
  split; intros (agent & Hin & Hline); exists agent;
    by rewrite ?list_elem_of_In in *.
Qed.

(** The lines of the report that can name an agent are its own. *)
Lemma no_output_line state agent :
  agent ∈ specialist_agents →
  name agent +:+ ": No review output"
    ∈ flat_map (issue_of state) specialist_agents ↔
  no_output state agent = true.
Proof.
  intros Hin. rewrite issue_of_elem. unfold issue_of. split.
  - intros (b & Hb & Hline). destruct (no_output state b) eqn:Hout.
    + apply list_elem_of_singleton, issue_line_inj in Hline; [|done..].
      by subst.
    + destruct (reports_no_access state b); [|by apply elem_of_nil in Hline].
      apply list_elem_of_singleton in Hline.
      by apply issue_lines_differ in Hline.
  - intros Hout. exists agent. rewrite Hout. split; [done|]. by left.
Qed.

Lemma no_access_line state agent :
  agent ∈ specialist_agents →
  name agent +:+ ": Could not access PR data"
    ∈ flat_map (issue_of state) specialist_agents ↔
  reports_no_access state agent = true.
Proof.
  intros Hin. rewrite issue_of_elem. unfold issue_of. split.
  - intros (b & Hb & Hline). destruct (no_output state b) eqn:Hout.
    + apply list_elem_of_singleton in Hline. symmetry in Hline.
      by apply issue_lines_differ in Hline.
    + destruct (reports_no_access state b) eqn:Hrep;
        [|by apply elem_of_nil in Hline].
      apply list_elem_of_singleton, issue_line_inj in Hline; [|done..].
      by subst.
  - intros Hrep. exists agent. rewrite Hrep.
    unfold reports_no_access in Hrep.
    destruct (no_output state agent); [done|]. split; [done|]. by left.
Qed.

(** An agent with output has its entry in the report, and every entry
    is the entry of an agent with output. *)
Lemma entries_names state entries :
  Forall2 (entry_for owner repo pr_num state) (with_output state) entries →
  sr_agent <$> entries = name <$> with_output state.
Proof.
  induction 1 as [|agent e agents entries (d & n & _ & _ & ->) _ IH];
    [reflexivity|]. rewrite !fmap_cons. by f_equal.
Qed.

Lemma with_output_elem state agent :
  agent ∈ with_output state ↔
  agent ∈ specialist_agents ∧ no_output state agent = false.
Proof.
  unfold with_output. rewrite !list_elem_of_In, filter_In, negb_true_iff.
  done.
Qed.

Lemma entry_of_agent state entries agent :
  Forall2 (entry_for owner repo pr_num state) (with_output state) entries →
  agent ∈ with_output state →
  ∃ e, e ∈ entries ∧ entry_for owner repo pr_num state agent e.
Proof.
  intros Hall (i & Hi)%list_elem_of_lookup.
  destruct (Forall2_lookup_l _ _ _ _ _ Hall Hi) as (e & He & Hentry).
  exists e. split; [|done]. apply list_elem_of_lookup. by exists i.
Qed.

Lemma agent_of_entry state entries e :
  Forall2 (entry_for owner repo pr_num state) (with_output state) entries →
  e ∈ entries →
  ∃ agent, agent ∈ with_output state ∧
           entry_for owner repo pr_num state agent e.
Proof.
  intros Hall (i & Hi)%list_elem_of_lookup.
  destruct (Forall2_lookup_r _ _ _ _ _ Hall Hi) as (agent & Ha & Hentry).
  exists agent. split; [|done]. apply list_elem_of_lookup. by exists i.
Qed.
End EntryFacts.

(** ** Scores *)

(** C8, as stated, fails: a specialist that answered in prose gets an entry
    whose score is 0. *)
Lemma score_range_counterexample :
  let state := sample_store (Some "Looks good to me.") cautious_synthesis in
  ∃ r, @run_review RefDecoder.decoder "octo" "demo" 7 "2025-01-01T00:00:00" []
         state = Returns r ∧
       ∃ e, e ∈ specialist_reviews r ∧ sr_agent e = "ProductOwner" ∧
            sr_score e = JInt 0 ∧
            ¬ ∃ n, sr_score e = JInt n ∧ 1 ≤ n ≤ 10.
Proof.
  intros state. subst state. run_sample Hrun Hval. rewrite <- Hval.
  eexists. split; [left|]. split; [reflexivity|]. split; [reflexivity|].
  cbn [sr_score]. intros (n & [= <-] & Hn). lia.
Qed.

(** C8, amended.  The entries of the report are those of the specialists
    that produced output, in order; the score of an entry is the [score]
    of the payload extracted from that specialist's output, unchanged, and
    0 when the payload has none.  No range is enforced. *)
Theorem score_passed_through `{Decoder} (owner repo : string) (pr_num : Z)
    (now : string) (events : list Event) (state : session_state) (r : Report) :
  run_review owner repo pr_num now events state = Returns r →
  Forall2 (λ agent e,
             sr_agent e = name agent ∧
             ∃ d, payload_of state agent = Returns (JObj d) ∧
                  sr_score e = default (JInt 0) (d !! "score"))
    (with_output state) (specialist_reviews r).
Proof.
  intros (acc & d & Hacc & _ & ->)%run_review_returns.
  apply collect_returns in Hacc as (Hent & _).
  cbn [specialist_reviews report_from].
  eapply Forall2_impl; [exact Hent|].
  intros agent e (d' & n & Hpay & _ & ->). split; [reflexivity|].
  by exists d'.
Qed.

Lemma score_passed_through_witness :
  let state := sample_store (Some "Looks good to me.") cautious_synthesis in
  ∃ r, @run_review RefDecoder.decoder "octo" "demo" 7 "2025-01-01T00:00:00" []
         state = Returns r ∧
       sr_score <$> specialist_reviews r
         = [JInt 0; JInt 9; JInt 9; JInt 9; JInt 9] ∧
       Forall2 (λ agent e,
                  sr_agent e = name agent ∧
                  ∃ d, @payload_of RefDecoder.decoder state agent
                         = Returns (JObj d) ∧
                       sr_score e = default (JInt 0) (d !! "score"))
         (with_output state) (specialist_reviews r).
Proof.
  intros state. subst state. run_sample Hrun Hval.
  split; [by_value Hval|].
  exact (@score_passed_through RefDecoder.decoder _ _ _ _ _ _ _ Hrun).
Defined.

(** ** Specialists without a [pr_accessed] field, and without output *)

Section LoopIterates.
Context `{Decoder}.
Variables (owner repo : string) (pr_num : Z).

(** A loop that returns has iterated over the file list of every agent
    whose payload does not deny access. *)
Lemma review_agents_iterable state agents acc acc' agent d :
  review_agents owner repo pr_num state acc agents = Returns acc' →
  agent ∈ agents →
  no_output state agent = false →
  payload_of state agent = Returns (JObj d) →
  accessed d = true →
  ∃ items, py_iter (file_list d) = Returns items.
Proof.
  revert acc. induction agents as [|a rest IH]; intros acc Hloop Hin Hout Hpay Hd.
  { by apply elem_of_nil in Hin. }
  cbn [review_agents] in Hloop. unfold mbind, outcome_bind in Hloop.
  destruct (review_agent _ _ _ _ _ _) as [acc1|] eqn:Hstep; [|discriminate].
  apply elem_of_cons in Hin as [<-|Hin]; [|by eapply IH].
  apply review_agent_returns in Hstep
    as [(Hout' & _)|(_ & d' & n & Hpay' & _ & _ & Hacc)]; [congruence|].
  assert (d' = d) as -> by congruence. rewrite Hd in Hacc.
  destruct Hacc as [Hupd _]. unfold set_update, mbind, outcome_bind in Hupd.
  destruct (py_iter (file_list d)) as [items|]; [by exists items|discriminate].
Qed.
End LoopIterates.

(** C9.  A specialist that produced output whose payload has no
    [pr_accessed] field is treated as having accessed the pull request: it
    is not counted as a data-access issue and neither issue line names it;
    its entry carries [pr_accessed = true] and its file list; the file list
    ([files_in_diff], else [files_reviewed], else empty) was iterated over
    and each path in it is in the report's [files_reviewed].  The fallback
    payload never has the field. *)
Theorem missing_pr_accessed_counts_as_accessed `{Decoder}
    (owner repo : string) (pr_num : Z) (now : string) (events : list Event)
    (state : session_state) (r : Report) (agent : LlmAgent)
    (d : gmap string json) :
  run_review owner repo pr_num now events state = Returns r →
  agent ∈ specialist_agents →
  no_output state agent = false →
  payload_of state agent = Returns (JObj d) →
  d !! "pr_accessed" = None →
  access_failed state agent = false ∧
  ((name agent +:+ ": Could not access PR data") ∉ data_access_issues r) ∧
  ((name agent +:+ ": No review output") ∉ data_access_issues r) ∧
  (∃ e, e ∈ specialist_reviews r ∧ sr_agent e = name agent ∧
        sr_pr_accessed e = JBool true ∧ sr_files_reviewed e = file_list d) ∧
  (∃ items, py_iter (file_list d) = Returns items ∧
            ∀ f, JStr f ∈ items → JStr f ∈ files_reviewed r) ∧
  (∀ text d', fallback_payload text = JObj d' → d' !! "pr_accessed" = None).
Proof.
  intros (acc & ds & Hacc & _ & ->)%run_review_returns Hin Hout Hpay Hnone.
  assert (accessed d = true) as Hd.
  { unfold accessed, pr_accessed_of. by rewrite Hnone. }
  assert (reports_no_access state agent = false) as Hrep.
  { unfold reports_no_access. by rewrite Hout, Hpay, Hd. }
  pose proof Hacc as Hloop. unfold collect in Hloop.
  destruct (review_agents_iterable _ _ _ _ _ _ _ _ _ Hloop Hin Hout Hpay Hd)
    as [items Hitems].
  apply collect_returns in Hacc as (Hent & Hiss & _ & Hfiles).
  cbn [data_access_issues specialist_reviews files_reviewed report_from].
  rewrite Hiss.
  split; [unfold access_failed; by rewrite Hout, Hrep|].
  split; [rewrite no_access_line by done; congruence|].
  split; [rewrite no_output_line by done; congruence|].
  split; [|split].
  - destruct (entry_of_agent owner repo pr_num state _ agent Hent)
      as (e & He & d' & n & Hpay' & _ & ->).
    { by apply with_output_elem. }
    assert (d' = d) as -> by congruence.
    exists (entry_of owner repo pr_num agent d n).
    split; [done|]. split; [done|]. split; [|done].
    cbn [sr_pr_accessed entry_of]. unfold pr_accessed_of. by rewrite Hnone.
  - exists items. split; [done|]. intros f Hf. apply Hfiles.
    exists agent. split; [done|]. by exists d, items.
  - intros text d' [= <-]. done.
Qed.

Lemma missing_pr_accessed_counts_as_accessed_witness :
  let state := sample_store (Some untagged_text) cautious_synthesis in
  ∃ r d, @run_review RefDecoder.decoder "octo" "demo" 7 "2025-01-01T00:00:00"
           [] state = Returns r ∧
         @payload_of RefDecoder.decoder state product_owner = Returns (JObj d) ∧
         d !! "pr_accessed" = None ∧
         ((name product_owner +:+ ": Could not access PR data")
            ∉ data_access_issues r) ∧
         ∃ items, py_iter (file_list d) = Returns items ∧
                  ∀ f, JStr f ∈ items → JStr f ∈ files_reviewed r.
Proof.
  intros state. subst state.
  destruct (@run_review RefDecoder.decoder "octo" "demo" 7 "2025-01-01T00:00:00"
              [] (sample_store (Some untagged_text) cautious_synthesis))
    as [r|] eqn:Hrun; [|exfalso; vm_compute in Hrun; discriminate Hrun].
  set (d := <["files_reviewed" := JArr [JStr "x.py"]]>
              (<["findings" := JArr []]> (∅ : gmap string json))).
  assert (@payload_of RefDecoder.decoder
            (sample_store (Some untagged_text) cautious_synthesis) product_owner
          = Returns (JObj d)) as Hpay by computed.
  assert (d !! "pr_accessed" = None) as Hnone by computed.
  exists r, d. split; [reflexivity|]. split; [exact Hpay|].
  split; [exact Hnone|].
  destruct (@missing_pr_accessed_counts_as_accessed RefDecoder.decoder
              _ _ _ _ _ _ r product_owner d Hrun)
    as (_ & Hline & _ & _ & Hitems & _).
  - left.
  - computed.
  - exact Hpay.
  - exact Hnone.
  - split; [exact Hline|exact Hitems].
Defined.

(** C10.  A specialist whose stored output is empty (or absent) only adds
    the line "<name>: No review output" to the issues: no entry of
    [specialist_reviews] bears its name and the other issue line is not
    written for it.  The entries are those of the specialists with output,
    in the order of the loop, so there are at most five of them and fewer
    when some output is empty; each entry's [findings_count] is the
    length of its [findings]. *)
Theorem empty_output_omitted `{Decoder} (owner repo : string) (pr_num : Z)
    (now : string) (events : list Event) (state : session_state) (r : Report) :
  run_review owner repo pr_num now events state = Returns r →
  sr_agent <$> specialist_reviews r = name <$> with_output state ∧
  (length (specialist_reviews r) ≤ 5)%nat ∧
  Forall (λ e, py_len (sr_findings e) = Returns (sr_findings_count e))
    (specialist_reviews r) ∧
  ∀ agent, agent ∈ specialist_agents → no_output state agent = true →
    (name agent ∉ (sr_agent <$> specialist_reviews r)) ∧
    ((name agent +:+ ": No review output") ∈ data_access_issues r) ∧
    ((name agent +:+ ": Could not access PR data") ∉ data_access_issues r) ∧
    (length (specialist_reviews r) < 5)%nat.
Proof.
  intros (acc & ds & Hacc & _ & ->)%run_review_returns.
  apply collect_returns in Hacc as (Hent & Hiss & _).
  cbn [data_access_issues specialist_reviews report_from]. rewrite Hiss.
  pose proof (entries_names owner repo pr_num state _ Hent) as Hnames.
  assert (length (specialist_results acc) = length (with_output state)) as Hlen.
  { by rewrite <- (length_fmap sr_agent), Hnames, length_fmap. }
  split; [exact Hnames|]. split; [|split].
  - rewrite Hlen. apply (List.filter_length_le _ specialist_agents).
  - clear Hnames Hlen. induction Hent as [|a e l k (d & n & _ & Hn & ->) _ IH];
      constructor; [exact Hn|exact IH].
  - intros agent Hin Hout. split; [|split; [|split]].
    + rewrite Hnames. intros (b & Hname & Hb)%list_elem_of_fmap.
      apply with_output_elem in Hb as [Hb Hbout].
      apply specialist_name_inj in Hname; [|done..]. congruence.
    + by apply no_output_line.
    + rewrite no_access_line by done. unfold reports_no_access.
      by rewrite Hout.
    + rewrite Hlen. unfold with_output.
      pose proof (filter_length_all (λ a, negb (no_output state a))
                    specialist_agents) as [Hall _].
      pose proof (List.filter_length_le (λ a, negb (no_output state a))
                    specialist_agents) as Hle.
      change (length specialist_agents) with 5%nat in *.
      destruct (decide (length (List.filter (λ a, negb (no_output state a))
                                  specialist_agents) = 5%nat)) as [Heq|]; [|lia].
      specialize (Hall Heq agent Hin). rewrite Hout in Hall. discriminate.
Qed.

Lemma empty_output_omitted_witness :
  let state := sample_store None cautious_synthesis in
  ∃ r, @run_review RefDecoder.decoder "octo" "demo" 7 "2025-01-01T00:00:00" []
         state = Returns r ∧
       sr_agent <$> specialist_reviews r
         = ["SeniorEngineer"; "SecurityEngineer"; "DevOpsEngineer"; "QAEngineer"] ∧
       data_access_issues r = ["ProductOwner: No review output"] ∧
       name product_owner ∉ sr_agent <$> specialist_reviews r.
Proof.
  intros state. subst state. run_sample Hrun Hval.
  split; [by_value Hval|]. split; [by_value Hval|].
  destruct (@empty_output_omitted RefDecoder.decoder _ _ _ _ _ _ _ Hrun)
    as (_ & _ & _ & Hempty).
  apply (Hempty product_owner); [left|computed].
Defined.

(** ** Sample texts for the extractor *)


(** ** The barrier between the two phases *)

Section Barrier.
Import Orchestrator.
Context {PG TG : Type}.
Variable parallel_review_next : PG → session_state → resumed PG.
Variable tech_lead_next : TG → session_state → resumed TG.
Variable parallel_review_run : PG.
Variable tech_lead_run : TG.

Abbreviation next :=
  (run_async_impl_next PG TG parallel_review_next tech_lead_next tech_lead_run).
Abbreviation runs :=
  (run PG TG parallel_review_next tech_lead_next tech_lead_run).

(** A resumption in the second loop stays there, and so does a resumption
    after the end. *)
Lemma phase2_yields g state event ph state' :
  phase2 PG TG tech_lead_next g state = Yielded event ph state' →
  ∃ g', ph = Phase2 PG TG g' ∧
        tech_lead_next g state = Yielded event g' state'.
Proof.
  unfold phase2. destruct (tech_lead_next g state) as [e g' s| |];
    [|discriminate..].
  intros [= <- <- <-]. by exists g'.
Qed.

Lemma run_phase2 ph events ph' :
  runs ph events ph' →
  (∃ g, ph = Phase2 PG TG g) →
  Forall (λ x, x.1 = TechLead) events ∧ ∃ g', ph' = Phase2 PG TG g'.
Proof.
  induction 1 as [ph|ph state event ph1 state1 events ph2 Hnext _ IH];
    intros [g ->]; [by split; [constructor|exists g]|].
  cbn [run_async_impl_next] in Hnext.
  apply phase2_yields in Hnext as (g' & -> & _).
  destruct IH as [Hall Hend]; [by exists g'|].
  split; [|exact Hend]. by constructor.
Qed.

Lemma run_phase1 ph events ph' :
  runs ph events ph' →
  ∀ g0, ph = Phase1 PG TG g0 →
  ∃ before after g,
    events = before ++ after ∧
    Forall (λ x, x.1 = ParallelReview) before ∧
    Forall (λ x, x.1 = TechLead) after ∧
    yields parallel_review_next g0 (before.*2) g ∧
    behind_barrier PG TG parallel_review_next tech_lead_next tech_lead_run
      g after ph'.
Proof.
  induction 1 as [ph|ph state event ph1 state1 events ph2 Hnext Hrest IH];
    intros g0 ->.
  { exists [], [], g0. repeat split; try constructor. }
  cbn [run_async_impl_next] in Hnext.
  destruct (parallel_review_next g0 state) as [e g1 s1|s1|] eqn:Hpar;
    [| |discriminate].
  - injection Hnext as <- <- <-.
    destruct (IH g1 eq_refl) as (before & after & g & -> & Hb & Ha & Hy & Hbar).
    exists ((ParallelReview, e) :: before), after, g.
    split; [reflexivity|]. split; [by constructor|]. split; [exact Ha|].
    split; [|exact Hbar]. by eapply yields_cons.
  - apply phase2_yields in Hnext as (g' & -> & Htl).
    destruct (run_phase2 _ _ _ Hrest) as [Hall [g2 ->]]; [by exists g'|].
    exists [], ((TechLead, event) :: events), g0.
    split; [reflexivity|]. split; [constructor|].
    split; [by constructor|]. split; [constructor|].
    split; [by exists g2|]. by exists state, s1, g', state1.
Qed.

(** C7.  Whatever events a consumer has received from the orchestrator,
    those that came through the first loop all precede those that came
    through the second; the former are a run of the parallel generator
    from its start; and the tech-lead generator is not started before the
    parallel generator has been found exhausted: its first event was
    obtained by starting it on the store left at that moment. *)
Theorem synthesis_after_barrier events ph :
  runs (Phase1 PG TG parallel_review_run) events ph →
  ∃ before after g,
    events = before ++ after ∧
    Forall (λ x, x.1 = ParallelReview) before ∧
    Forall (λ x, x.1 = TechLead) after ∧
    yields parallel_review_next parallel_review_run (before.*2) g ∧
    behind_barrier PG TG parallel_review_next tech_lead_next tech_lead_run
      g after ph.
Proof. intros Hrun. by eapply run_phase1. Qed.
End Barrier.

Lemma synthesis_after_barrier_witness :
  Orchestrator.run (list Event) (list Event) replay replay [synthesis_event]
    (Orchestrator.Phase1 _ _ [specialist_event])
    [(Orchestrator.ParallelReview, specialist_event);
     (Orchestrator.TechLead, synthesis_event)]
    (Orchestrator.Phase2 _ _ []) ∧
  ∃ before after g,
    [(Orchestrator.ParallelReview, specialist_event);
     (Orchestrator.TechLead, synthesis_event)] = before ++ after ∧
    Forall (λ x, x.1 = Orchestrator.ParallelReview) before ∧
    Forall (λ x, x.1 = Orchestrator.TechLead) after ∧
    Orchestrator.yields replay [specialist_event] (before.*2) g ∧
    Orchestrator.behind_barrier (list Event) (list Event) replay replay
      [synthesis_event] g after (Orchestrator.Phase2 _ _ []).
Proof.
  assert (Orchestrator.run (list Event) (list Event) replay replay
            [synthesis_event]
            (Orchestrator.Phase1 _ _ [specialist_event])
            [(Orchestrator.ParallelReview, specialist_event);
             (Orchestrator.TechLead, synthesis_event)]
            (Orchestrator.Phase2 _ _ [])) as Hrun.
  { eapply (Orchestrator.run_cons _ _ _ _ _ _ ∅ specialist_event
              (Orchestrator.Phase1 _ _ []) ∅); [reflexivity|].
    eapply (Orchestrator.run_cons _ _ _ _ _ _ ∅ synthesis_event
              (Orchestrator.Phase2 _ _ []) ∅); [reflexivity|].
    apply Orchestrator.run_nil. }
  split; [exact Hrun|].
  exact (synthesis_after_barrier replay replay [specialist_event]
           [synthesis_event] _ _ Hrun).
Defined.

(** ** More on the extractor *)

Lemma append_length s t :
  String.length (s +:+ t) = (String.length s + String.length t)%nat.
Proof. induction s as [|a s IH]; simpl; [done|]. by rewrite IH. Qed.

Lemma find_from_skip c prefix rest i :
  (∀ n, String.get n prefix ≠ Some c) →
  find_from c (prefix +:+ rest) i
    = find_from c rest (i + Z.of_nat (String.length prefix)).
Proof.
  revert i. induction prefix as [|a p IH]; intros i Hno; simpl.
  - f_equal. lia.
  - destruct (Ascii.eqb_spec a c) as [->|_]; [by destruct (Hno 0%nat)|].
    rewrite IH; [f_equal; lia|]. intros n. apply (Hno (S n)).
Qed.

Lemma rfind_from_append c s t i last :
  rfind_from c (s +:+ t) i last
    = rfind_from c t (i + Z.of_nat (String.length s)) (rfind_from c s i last).
Proof.
  revert i last. induction s as [|a s IH]; intros i last; simpl.
  - f_equal. lia.
  - rewrite IH. f_equal. lia.
Qed.

Lemma rfind_from_none c s i last :
  (∀ n, String.get n s ≠ Some c) → rfind_from c s i last = last.
Proof.
  revert i last. induction s as [|a s IH]; intros i last Hno; simpl; [done|].
  destruct (Ascii.eqb_spec a c) as [->|_]; [by destruct (Hno 0%nat)|].
  apply IH. intros n. apply (Hno (S n)).
Qed.

Lemma substring_head body suffix :
  substring 0 (String.length body) (body +:+ suffix) = body.
Proof.
  induction body as [|b body IH]; simpl; [by destruct suffix|].
  by rewrite IH.
Qed.

Lemma substring_middle prefix body suffix :
  substring (String.length prefix) (String.length body)
    (prefix +:+ body +:+ suffix) = body.
Proof.
  induction prefix as [|a p IH]; [exact (substring_head body suffix)|exact IH].
Qed.

(** A JSON object wrapped in prose: when no ['{'] comes before it and no
    ['}'] after it, the decoder is given exactly the object's text. *)
Lemma slice_of_wrapped prefix inner suffix :
  (∀ n, String.get n prefix ≠ Some "{"%char) →
  (∀ n, String.get n suffix ≠ Some "}"%char) →
  let body := String "{" inner +:+ "}" in
  let text := prefix +:+ body +:+ suffix in
  has_braces text ∧
  slice text (find text "{") (rfind text "}" + 1) = body.
Proof.
  intros Hpre Hsuf body text.
  assert (find text "{" = Z.of_nat (String.length prefix)) as Hfind.
  { unfold find, text. rewrite find_from_skip by done. simpl. lia. }
  assert (rfind text "}"
          = Z.of_nat (String.length prefix) + Z.of_nat (String.length body) - 1)
    as Hrfind.
  { unfold rfind, text. rewrite !rfind_from_append.
    rewrite (rfind_from_none _ suffix) by done.
    unfold body. change (String "{" inner +:+ "}")
      with (String "{" (inner +:+ "}")).
    change (String "{" (inner +:+ "}")) with (("{" +:+ inner) +:+ "}").
    rewrite rfind_from_append. simpl.
    simpl. rewrite !append_length. simpl. lia. }
  split.
  - apply extract_guard. rewrite Hfind, Hrfind.
    apply andb_true_intro. split; [apply Z.leb_le|apply Z.ltb_lt]; [lia|].
    unfold body. simpl. lia.
  - unfold slice. rewrite Hfind, Hrfind, Nat2Z.id.
    replace (Z.to_nat _) with (String.length body) by lia.
    apply substring_middle.
Qed.

(** X1.  Prose around a JSON object is ignored: for a text made of a prefix
    without ['{'], an object text [{...}] and a suffix without ['}'], the
    extractor returns what the decoder returns on the object text alone,
    the fallback payload of the whole text when the decoder rejects it, and
    raises what the decoder raises otherwise. *)
Theorem parse_ignores_surrounding_prose `{Decoder} (prefix inner suffix : string) :
  (∀ n, String.get n prefix ≠ Some "{"%char) →
  (∀ n, String.get n suffix ≠ Some "}"%char) →
  let body := String "{" inner +:+ "}" in
  let text := prefix +:+ body +:+ suffix in
  parse_json_response text =
  match json_loads body with
  | Returns v => Returns v
  | Raises JSONDecodeError => Returns (fallback_payload text)
  | Raises e => Raises e
  end.
Proof.
  intros Hpre Hsuf body text.
  destruct (slice_of_wrapped prefix inner suffix Hpre Hsuf) as [Hb Hslice].
  fold body text in Hb, Hslice. apply extract_guard in Hb.
  unfold parse_json_response. by rewrite Hb, Hslice.
Qed.

Lemma parse_ignores_surrounding_prose_witness :
  @parse_json_response RefDecoder.decoder
    ("Verdict: " +:+ (String "{" (dq "'score': 8") +:+ "}") +:+ " - thanks")
  = Returns (JObj (<["score" := JInt 8]> ∅)).
Proof.
  rewrite (@parse_ignores_surrounding_prose RefDecoder.decoder
             "Verdict: " (dq "'score': 8") " - thanks").
  - computed.
  - intros n. do 9 (destruct n as [|n]; [discriminate|]). discriminate.
  - intros n. do 9 (destruct n as [|n]; [discriminate|]). discriminate.
Defined.

(** X2.  The extractor raises exactly when the text has braces in order and
    the decoder raises something other than [JSONDecodeError] on the slice;
    it then raises the same exception. *)
Theorem parse_raises_iff `{Decoder} (text : string) (e : exn) :
  parse_json_response text = Raises e ↔
  has_braces text ∧ e ≠ JSONDecodeError ∧
  json_loads (slice text (find text "{") (rfind text "}" + 1)) = Raises e.
Proof.
  rewrite <- extract_guard. unfold parse_json_response.
  destruct ((0 <=? find text "{") && (find text "{" <? rfind text "}" + 1));
    [|split; [discriminate|by intros [? _]]].
  destruct (json_loads _) as [v|e'].
  - split; [discriminate|]. by intros (_ & _ & ?).
  - destruct e'; split; try discriminate;
      try (intros [= <-]; by repeat split);
      try (intros (_ & Hne & [= <-]); done).
Qed.

(** ** When the aggregation returns *)

Lemma set_add_all_returns s items :
  (∃ s', set_add_all s items = Returns s') ↔
  Forall (λ x, hashable x = true) items.
Proof.
  revert s. induction items as [|x rest IH]; intros s; simpl.
  - split; [constructor|by eexists].
  - unfold mbind, outcome_bind, set_add. rewrite Forall_cons.
    destruct (hashable x); [|split; [by intros [? ?]|by intros [? _]]].
    rewrite IH. tauto.
Qed.

Section ReturnFacts.
Context `{Decoder}.
Variables (owner repo : string) (pr_num : Z).

Lemma review_agent_returns_iff state acc agent :
  (∃ acc', review_agent owner repo pr_num state acc agent = Returns acc') ↔
  reviewable state agent.
Proof.
  split.
  - intros [acc' [(Hout & _)|(Hout & d & n & Hpay & Hlen & _ & Hacc)]%review_agent_returns];
      [by left|right].
    exists d, n. split; [done|]. split; [done|]. intros Hd. rewrite Hd in Hacc.
    destruct Hacc as [Hupd _]. unfold set_update, mbind, outcome_bind in Hupd.
    destruct (py_iter (file_list d)) as [items|]; [|discriminate].
    exists items. split; [done|]. apply (set_add_all_returns (all_files_reviewed acc)).
    by eexists.
  - intros [Hout|(d & n & Hpay & Hlen & Hfiles)].
    { rewrite review_agent_empty by done. by eexists. }
    destruct (no_output state agent) eqn:Hout.
    { rewrite review_agent_empty by done. by eexists. }
    unfold review_agent, payload_of in *. unfold no_output in Hout.
    fold (review_text state agent). rewrite Hout, Hpay.
    unfold mbind, outcome_bind. simpl.
    fold (pr_accessed_of d) (file_list d) (findings_of d). fold (accessed d).
    rewrite Hlen. destruct (accessed d); simpl; [|by eexists].
    destruct Hfiles as (items & Hiter & Hhash); [done|].
    unfold set_update, mbind, outcome_bind. rewrite Hiter.
    apply (set_add_all_returns (all_files_reviewed acc)) in Hhash as [s' ->].
    by eexists.
Qed.

Lemma review_agents_returns_iff state agents acc :
  (∃ acc', review_agents owner repo pr_num state acc agents = Returns acc') ↔
  Forall (reviewable state) agents.
Proof.
  revert acc. induction agents as [|agent rest IH]; intros acc; simpl.
  - split; [constructor|by eexists].
  - rewrite Forall_cons, <- (review_agent_returns_iff state acc agent).
    unfold mbind, outcome_bind.
    destruct (review_agent _ _ _ _ _ _) as [acc1|e].
    + rewrite IH. split; [by split; [eexists|]|by intros [_ ?]].
    + split; [by intros [? ?]|by intros [[? ?] _]].
Qed.
End ReturnFacts.

(** X3.  [run_review] returns a report exactly when every specialist is
    reviewable (no output, or a dictionary payload whose findings have a
    length and whose file list, unless access is denied, is iterable with
    hashable members) and the synthesis text yields a dictionary; in every
    other case it raises. *)
Theorem run_review_returns_iff `{Decoder} (owner repo : string) (pr_num : Z)
    (now : string) (events : list Event) (state : session_state) :
  (∃ r, run_review owner repo pr_num now events state = Returns r) ↔
  Forall (reviewable state) specialist_agents ∧
  ∃ d, parse_json_response (synthesis_text events state) = Returns (JObj d).
Proof.
  rewrite run_review_unfold.
  rewrite <- (review_agents_returns_iff owner repo pr_num state specialist_agents
                {| specialist_results := []; all_files_reviewed := [];
                   issues := [] |}).
  fold (collect owner repo pr_num state).
  destruct (collect owner repo pr_num state) as [acc|e].
  - destruct (parse_json_response _) as [v|e].
    + destruct v as [| | | | | |d0];
        (split; [intros [r Hr]|intros [_ [d' Hd]]]);
        try discriminate; [by split; eexists|by eexists].
    + split; [by intros [? ?]|by intros [_ [? ?]]].
  - split; [by intros [? ?]|by intros [[? ?] _]].
Qed.

(** A payload whose findings are a number has no length: the run raises. *)
Lemma run_review_returns_iff_witness :
  let state := sample_store (Some (dq "{'findings': 3}")) cautious_synthesis in
  ¬ @reviewable RefDecoder.decoder state product_owner ∧
  ¬ ∃ r, @run_review RefDecoder.decoder "octo" "demo" 7 "2025-01-01T00:00:00"
           [] state = Returns r.
Proof.
  intros state.
  assert (¬ @reviewable RefDecoder.decoder state product_owner) as Hno.
  { intros [Hout|(d & n & Hpay & Hlen & _)].
    - vm_compute in Hout. discriminate Hout.
    - vm_compute in Hpay. injection Hpay as <-.
      vm_compute in Hlen. discriminate Hlen. }
  split; [exact Hno|].
  intros [Hall _]%(@run_review_returns_iff RefDecoder.decoder).
  apply Forall_cons in Hall as [Hpo _]. exact (Hno Hpo).
Defined.

(** ** The events of the runner *)

Lemma final_response_step (final_response : string) (event : Event) :
  passed_over event →
  (if is_final_response event then
     match content event with
     | Some (text :: _) => text
     | _ => final_response
     end
   else final_response) = final_response.
Proof.
  intros [->|[Hc|Hc]]; [done|..]; rewrite Hc; by destruct (is_final_response _).
Qed.

(** X4.  The final response is the first part of the last event that is a
    final response with parts: events after it that are passed over do not
    change it, and with only such events it is the empty string. *)
Theorem final_response_last_wins (events rest : list Event) (event : Event)
    (text : string) (parts : list string) :
  is_final_response event = true →
  content event = Some (text :: parts) →
  Forall passed_over rest →
  final_response_of (events ++ event :: rest) = text ∧
  final_response_of rest = EmptyString.
Proof.
  intros Hfinal Hcontent Hrest. unfold final_response_of.
  rewrite foldl_app. cbn [foldl]. rewrite Hfinal, Hcontent.
  assert (∀ acc, foldl (λ final_response ev,
            if is_final_response ev then
              match content ev with
              | Some (t :: _) => t
              | _ => final_response
              end
            else final_response) acc rest = acc) as Hkeep.
  { induction Hrest as [|ev rest Hev _ IH]; intros acc; [done|].
    cbn [foldl]. rewrite (final_response_step acc ev Hev). apply IH. }
  by rewrite !Hkeep.
Qed.

Lemma final_response_last_wins_witness :
  final_response_of
    ([specialist_event] ++ synthesis_event ::
     [ {| author := "TechLead"; is_final_response := false;
          content := Some ["partial"] |};
       {| author := "TechLead"; is_final_response := true;
          content := None |} ])
  = cautious_synthesis.
Proof.
  apply (final_response_last_wins [specialist_event] _ synthesis_event
           cautious_synthesis []); [reflexivity|reflexivity|].
  constructor; [by left|]. constructor; [by right; left|constructor].
Defined.

(** X5.  The events reach the report only through the final response, and
    not at all when the store has the tech lead's slot: the report is then
    the same whatever the runner yielded. *)
Theorem events_only_matter_without_slot `{Decoder} (owner repo : string)
    (pr_num : Z) (now : string) (events events' : list Event)
    (state : session_state) :
  (is_Some (state !! "tech_lead_synthesis") ∨
   final_response_of events = final_response_of events') →
  run_review owner repo pr_num now events state
    = run_review owner repo pr_num now events' state.
Proof.
  intros Hsame. rewrite !run_review_unfold.
  assert (synthesis_text events state = synthesis_text events' state) as ->;
    [|done].
  unfold synthesis_text. destruct Hsame as [[text ->]| ->]; done.
Qed.

Lemma events_only_matter_without_slot_witness :
  @run_review RefDecoder.decoder "octo" "demo" 7 "2025-01-01T00:00:00"
    [specialist_event; synthesis_event] (all_clean cautious_synthesis)
  = @run_review RefDecoder.decoder "octo" "demo" 7 "2025-01-01T00:00:00"
      [] (all_clean cautious_synthesis).
Proof.
  apply (@events_only_matter_without_slot RefDecoder.decoder).
  left. exists cautious_synthesis. computed.
Defined.

(** ** Invariants of the report *)

Section InvariantFacts.
Context `{Decoder}.
Variables (owner repo : string) (pr_num : Z).

(** Specialists counted as issues leave the set of files alone. *)
Lemma review_agents_no_files state agents acc acc' :
  review_agents owner repo pr_num state acc agents = Returns acc' →
  (∀ agent, agent ∈ agents → access_failed state agent = true) →
  all_files_reviewed acc' = all_files_reviewed acc.
Proof.
  revert acc. induction agents as [|agent rest IH]; intros acc; cbn [review_agents].
  { by intros [= <-]. }
  unfold mbind, outcome_bind.
  destruct (review_agent _ _ _ _ _ _) as [acc1|] eqn:Hstep; [|discriminate].
  intros Hrest Hall. rewrite (IH acc1 Hrest).
  2: { intros a Ha. apply Hall. by right. }
  specialize (Hall agent (list_elem_of_here _ _)).
  apply review_agent_returns in Hstep
    as [(_ & _ & Hfiles & _)|(Hout & d & n & Hpay & _ & _ & Hacc)]; [done|].
  unfold access_failed, reports_no_access in Hall.
  rewrite Hout, Hpay in Hall. simpl in Hall.
  apply negb_true_iff in Hall. rewrite Hall in Hacc. by destruct Hacc.
Qed.

Lemma entries_accessed state agents entries :
  Forall2 (entry_for owner repo pr_num state) agents entries →
  (∀ agent, agent ∈ agents → access_failed state agent = false) →
  Forall (λ e, truthy (sr_pr_accessed e) = true) entries.
Proof.
  induction 1 as [|agent e agents entries (d & n & Hpay & _ & ->) _ IH];
    intros Hall; constructor.
  - specialize (Hall agent (list_elem_of_here _ _)).
    unfold access_failed, reports_no_access in Hall.
    apply orb_false_elim in Hall as [Hout Hrep].
    rewrite Hout, Hpay in Hrep. simpl in Hrep.
    by apply negb_false_iff in Hrep.
  - apply IH. intros a Ha. apply Hall. by right.
Qed.
End InvariantFacts.

(** X6.  In every report the issue lines are, in the order of the loop, one
    line per specialist counted as an issue, so at most five; the status is
    [all_success] exactly when there is no line; and the entries together
    with the specialists without output make up the five specialists. *)
Theorem report_counts `{Decoder} (owner repo : string) (pr_num : Z)
    (now : string) (events : list Event) (state : session_state) (r : Report) :
  run_review owner repo pr_num now events state = Returns r →
  data_access_issues r = flat_map (issue_of state) specialist_agents ∧
  length (data_access_issues r)
    = length (List.filter (access_failed state) specialist_agents) ∧
  (length (data_access_issues r) ≤ 5)%nat ∧
  (data_access_status r = "all_success" ↔ data_access_issues r = []) ∧
  (length (specialist_reviews r)
   + length (List.filter (no_output state) specialist_agents) = 5)%nat.
Proof.
  intros (acc & d & Hacc & _ & ->)%run_review_returns.
  apply collect_returns in Hacc as (Hent & Hiss & _).
  cbn [data_access_issues data_access_status specialist_reviews report_from].
  split; [exact Hiss|]. rewrite Hiss.
  split; [apply issues_length|].
  split; [rewrite issues_length; apply (List.filter_length_le _ specialist_agents)|].
  split.
  - unfold data_status_of.
    destruct (flat_map (issue_of state) specialist_agents) as [|line lines];
      [done|]. cbn [length Nat.eqb].
    split; [|discriminate]. intros Hstatus.
    repeat case_match; discriminate.
  - apply Forall2_length in Hent. rewrite <- Hent. unfold with_output.
    pose proof (List.filter_length (λ a, negb (no_output state a))
                  specialist_agents) as Hsum.
    change (length specialist_agents) with 5%nat in Hsum.
    rewrite <- Hsum. f_equal. f_equal.
    apply List.filter_ext. intros a. by rewrite negb_involutive.
Qed.

Lemma report_counts_witness :
  ∃ r, @run_review RefDecoder.decoder "octo" "demo" 7 "2025-01-01T00:00:00" []
         two_without_access = Returns r ∧
       length (data_access_issues r) = 2%nat ∧
       (length (specialist_reviews r)
        + length (List.filter (no_output two_without_access) specialist_agents)
        = 5)%nat.
Proof.
  run_sample Hrun Hval. split; [by_value Hval|].
  by destruct (@report_counts RefDecoder.decoder _ _ _ _ _ _ _ Hrun)
    as (_ & _ & _ & _ & Hsum).
Defined.

(** X7.  A report with status [all_failed] lists no file at all; a report
    with status [all_success] has an entry for each of the five specialists
    and every entry's [pr_accessed] is true for Python. *)
Theorem status_bounds_report `{Decoder} (owner repo : string) (pr_num : Z)
    (now : string) (events : list Event) (state : session_state) (r : Report) :
  run_review owner repo pr_num now events state = Returns r →
  (data_access_status r = "all_failed" → files_reviewed r = []) ∧
  (data_access_status r = "all_success" →
     sr_agent <$> specialist_reviews r = name <$> specialist_agents ∧
     Forall (λ e, truthy (sr_pr_accessed e) = true) (specialist_reviews r)).
Proof.
  intros (acc & d & Hacc & _ & ->)%run_review_returns.
  pose proof Hacc as Hloop. unfold collect in Hloop.
  apply collect_returns in Hacc as (Hent & Hiss & _).
  cbn [data_access_status files_reviewed specialist_reviews report_from].
  rewrite Hiss. split.
  - intros Hstatus. pose proof (proj1 (data_status_failed state) Hstatus) as Hall.
    by rewrite (review_agents_no_files _ _ _ _ _ _ _ Hloop Hall).
  - intros Hstatus. pose proof (proj1 (data_status_success state) Hstatus) as Hall.
    assert (with_output state = specialist_agents) as Hwith.
    { unfold with_output. apply List.forallb_filter_id, forallb_forall.
      intros a Ha%list_elem_of_In. specialize (Hall a Ha).
      unfold access_failed in Hall. apply orb_false_elim in Hall as [-> _].
      done. }
    split.
    + by rewrite (entries_names owner repo pr_num state _ Hent), Hwith.
    + eapply entries_accessed; [exact Hent|].
      intros a Ha. apply Hall. by apply with_output_elem in Ha as [? _].
Qed.

Lemma status_bounds_report_witness :
  let state :=
    list_to_map [ ("productowner_review", denied_with_files);
                  ("seniorengineer_review", no_access_text);
                  ("securityengineer_review", no_access_text);
                  ("devopsengineer_review", no_access_text) ] in
  ∃ r, @run_review RefDecoder.decoder "octo" "demo" 7 "2025-01-01T00:00:00" []
         state = Returns r ∧
       data_access_status r = "all_failed" ∧ files_reviewed r = [].
Proof.
  intros state. subst state. run_sample Hrun Hval.
  destruct (@status_bounds_report RefDecoder.decoder _ _ _ _ _ _ _ Hrun)
    as [Hfailed _].
  split; [by_value Hval|]. apply Hfailed. by_value Hval.
Defined.

(** X8.  A specialist that answered in prose, with nothing to extract, gets
    the entry built from the fallback payload: its summary is the whole
    output, its role is the agent's description, access counts as given,
    and score, files, findings and their count are 0 or empty with
    recommendation [COMMENT]. *)
Theorem prose_review_entry `{Decoder} (owner repo : string) (pr_num : Z)
    (now : string) (events : list Event) (state : session_state) (r : Report)
    (agent : LlmAgent) :
  run_review owner repo pr_num now events state = Returns r →
  agent ∈ specialist_agents →
  no_output state agent = false →
  nothing_to_extract (review_text state agent) →
  {| sr_agent := name agent;
     sr_role := JStr (description agent);
     sr_pr_accessed := JBool true;
     sr_repository := JStr (owner +:+ "/" +:+ repo);
     sr_pr_number := JInt pr_num;
     sr_summary := JStr (review_text state agent);
     sr_score := JInt 0;
     sr_files_reviewed := JArr [];
     sr_recommendation := JStr "COMMENT";
     sr_rationale := JStr EmptyString;
     sr_findings := JArr [];
     sr_findings_count := 0 |} ∈ specialist_reviews r.
Proof.
  intros (acc & ds & Hacc & _ & ->)%run_review_returns Hin Hout Hnone.
  apply collect_returns in Hacc as (Hent & _).
  cbn [specialist_reviews report_from].
  assert (payload_of state agent
          = Returns (fallback_payload (review_text state agent))) as Hpay.
  { unfold payload_of.
    destruct Hnone; [by apply parse_no_braces|by apply parse_decode_error]. }
  destruct (entry_of_agent owner repo pr_num state _ agent Hent)
    as (e & He & d & n & Hpay' & Hlen & ->).
  { by apply with_output_elem. }
  rewrite Hpay in Hpay'. injection Hpay' as <-.
  injection Hlen as <-. exact He.
Qed.

Lemma prose_review_entry_witness :
  let state := sample_store (Some "Looks good to me.") cautious_synthesis in
  ∃ r, @run_review RefDecoder.decoder "octo" "demo" 7 "2025-01-01T00:00:00" []
         state = Returns r ∧
       ∃ e, e ∈ specialist_reviews r ∧ sr_agent e = "ProductOwner" ∧
            sr_summary e = JStr "Looks good to me." ∧
            sr_recommendation e = JStr "COMMENT" ∧ sr_findings_count e = 0.
Proof.
  intros state. subst state. run_sample Hrun Hval.
  eexists. split.
  - apply (@prose_review_entry RefDecoder.decoder _ _ _ _ _ _ _ product_owner
             Hrun); [left|computed|].
    left. intros (i & j & Hij & Hi & Hj).
    do 17 (destruct i as [|i]; [discriminate Hi|]). discriminate Hi.
  - repeat split; computed.
Defined.

(** ** Complete runs of the orchestrator *)

Section FullRun.
Import Orchestrator.
Context {PG TG : Type}.
Variable parallel_review_next : PG → session_state → resumed PG.
Variable tech_lead_next : TG → session_state → resumed TG.
Variable parallel_review_run : PG.
Variable tech_lead_run : TG.

Abbreviation next :=
  (run_async_impl_next PG TG parallel_review_next tech_lead_next tech_lead_run).
Abbreviation runs :=
  (run PG TG parallel_review_next tech_lead_next tech_lead_run).

Lemma run_app ph1 events1 ph2 events2 ph3 :
  runs ph1 events1 ph2 → runs ph2 events2 ph3 →
  runs ph1 (events1 ++ events2) ph3.
Proof.
  induction 1 as [ph|ph state event ph' state' events ph'' Hnext _ IH];
    intros Hrest; [exact Hrest|].
  cbn [app]. eapply run_cons; [exact Hnext|]. by apply IH.
Qed.

Lemma run_first_loop g events g' :
  yields parallel_review_next g events g' →
  runs (Phase1 PG TG g) (pair ParallelReview <$> events) (Phase1 PG TG g').
Proof.
  induction 1 as [g|g state event g1 state1 events g2 Hnext _ IH];
    [apply run_nil|].
  rewrite fmap_cons.
  apply (run_cons PG TG _ _ _ (Phase1 PG TG g) state event (Phase1 PG TG g1)
           state1); [|exact IH].
  cbn [run_async_impl_next]. by rewrite Hnext.
Qed.

Lemma run_second_loop g events g' :
  yields tech_lead_next g events g' →
  runs (Phase2 PG TG g) (pair TechLead <$> events) (Phase2 PG TG g').
Proof.
  induction 1 as [g|g state event g1 state1 events g2 Hnext _ IH];
    [apply run_nil|].
  rewrite fmap_cons.
  apply (run_cons PG TG _ _ _ (Phase2 PG TG g) state event (Phase2 PG TG g1)
           state1); [|exact IH].
  cbn [run_async_impl_next]. unfold phase2. by rewrite Hnext.
Qed.

Lemma second_loop_yields ph events ph' :
  runs ph events ph' → ∀ g, ph = Phase2 PG TG g →
  ∃ g', ph' = Phase2 PG TG g' ∧ yields tech_lead_next g (events.*2) g'.
Proof.
  induction 1 as [ph|ph state event ph1 state1 events ph2 Hnext _ IH];
    intros g ->; [exists g; split; [done|constructor]|].
  cbn [run_async_impl_next] in Hnext.
  apply phase2_yields in Hnext as (g1 & -> & Hnext).
  destruct (IH g1 eq_refl) as (g' & -> & Hrest).
  exists g'. split; [done|]. by eapply yields_cons.
Qed.

(** X9.  A complete run comes out in order and in full: when the parallel
    generator yields [events1] and is then found exhausted, and the
    tech-lead generator, started on the store left at that moment, yields
    [event :: events2] and is then found exhausted, the orchestrator yields
    [events1] followed by [event :: events2], each event unchanged, and is
    then exhausted itself. *)
Theorem full_run_in_order events1 g1 state1 state2 event gt state3 events2
    gt' state4 state5 :
  yields parallel_review_next parallel_review_run events1 g1 →
  parallel_review_next g1 state1 = Exhausted state2 →
  tech_lead_next tech_lead_run state2 = Yielded event gt state3 →
  yields tech_lead_next gt events2 gt' →
  tech_lead_next gt' state4 = Exhausted state5 →
  runs (Phase1 PG TG parallel_review_run)
    ((pair ParallelReview <$> events1) ++
     (pair TechLead <$> event :: events2))
    (Phase2 PG TG gt') ∧
  next (Phase2 PG TG gt') state4 = Exhausted state5.
Proof.
  intros Hfirst Hend Hstart Hsecond Hdone. split.
  - eapply run_app; [by apply run_first_loop|]. rewrite fmap_cons.
    apply (run_cons PG TG _ _ _ (Phase1 PG TG g1) state1 event
             (Phase2 PG TG gt) state3); [|by apply run_second_loop].
    cbn [run_async_impl_next]. rewrite Hend. unfold phase2. by rewrite Hstart.
  - cbn [run_async_impl_next]. unfold phase2. by rewrite Hdone.
Qed.

(** X10.  When the parallel generator raises, so does the orchestrator, with
    the same exception, and the tech-lead generator is not started: every
    event received so far came through the first loop.  When the parallel
    generator ends and the tech-lead generator ends at once, the
    orchestrator ends without a further event. *)
Theorem first_loop_failure events g state e :
  runs (Phase1 PG TG parallel_review_run) events (Phase1 PG TG g) →
  (parallel_review_next g state = Failed e →
     next (Phase1 PG TG g) state = Failed e) ∧
  (∀ state1 state2,
     parallel_review_next g state = Exhausted state1 →
     tech_lead_next tech_lead_run state1 = Exhausted state2 →
     next (Phase1 PG TG g) state = Exhausted state2) ∧
  Forall (λ x, x.1 = ParallelReview) events ∧
  yields parallel_review_next parallel_review_run (events.*2) g.
Proof.
  intros Hrun. split; [|split].
  - intros Hfail. cbn [run_async_impl_next]. by rewrite Hfail.
  - intros state1 state2 Hend Hnone. cbn [run_async_impl_next].
    rewrite Hend. unfold phase2. by rewrite Hnone.
  - destruct (run_phase1 _ _ _ _ _ _ Hrun parallel_review_run eq_refl)
      as (before & after & g' & -> & Hb & Ha & Hy & Hbar).
    destruct after as [|[src ev] after].
    + cbn [behind_barrier] in Hbar. injection Hbar as <-.
      rewrite app_nil_r. by split.
    + cbn [behind_barrier] in Hbar. by destruct Hbar as [[g2 [=]] _].
Qed.

(** X11.  Once the orchestrator is in its second loop, what it has yielded
    is a run of the parallel generator up to its exhaustion followed by a
    run of the tech-lead generator from its start on the store left at
    that moment: no event is added, dropped or reordered. *)
Theorem second_loop_passes_on events gt :
  runs (Phase1 PG TG parallel_review_run) events (Phase2 PG TG gt) →
  ∃ before event after g state0 state g' state',
    events = before ++ (TechLead, event) :: after ∧
    Forall (λ x, x.1 = ParallelReview) before ∧
    yields parallel_review_next parallel_review_run (before.*2) g ∧
    parallel_review_next g state0 = Exhausted state ∧
    tech_lead_next tech_lead_run state = Yielded event g' state' ∧
    yields tech_lead_next g' (after.*2) gt.
Proof.
  generalize parallel_review_run as g0.
  intros g0 Hrun. remember (Phase1 PG TG g0) as ph eqn:Hph.
  remember (Phase2 PG TG gt) as ph' eqn:Hph'. revert g0 Hph.
  induction Hrun as [ph|ph state event ph1 state1 events ph2 Hnext Hrest IH];
    intros g0 ->; [congruence|].
  cbn [run_async_impl_next] in Hnext.
  destruct (parallel_review_next g0 state) as [e g1 s1|s1|] eqn:Hpar;
    [| |discriminate].
  - injection Hnext as <- <- <-.
    destruct (IH Hph' g1 eq_refl)
      as (before & ev & after & g & s0 & s & g' & s' & -> & Hb & Hy & He & Hs & Ht).
    exists ((ParallelReview, e) :: before), ev, after, g, s0, s, g', s'.
    split; [reflexivity|]. split; [by constructor|].
    split; [by eapply yields_cons|]. by repeat split.
  - apply phase2_yields in Hnext as (g' & -> & Htl).
    destruct (second_loop_yields _ _ _ Hrest g' eq_refl) as (g2 & Heq & Hy).
    subst ph2. injection Heq as <-.
    exists [], event, events, g0, state, s1, g', state1.
    split; [reflexivity|]. split; [constructor|]. split; [constructor|].
    by repeat split.
Qed.
End FullRun.

(** The sample run: one event from each generator. *)
Lemma sample_run :
  Orchestrator.run (list Event) (list Event) replay replay [synthesis_event]
    (Orchestrator.Phase1 _ _ [specialist_event])
    [(Orchestrator.ParallelReview, specialist_event);
     (Orchestrator.TechLead, synthesis_event)]
    (Orchestrator.Phase2 _ _ []).
Proof.
  eapply (Orchestrator.run_cons _ _ _ _ _ _ ∅ specialist_event
            (Orchestrator.Phase1 _ _ []) ∅); [reflexivity|].
  eapply (Orchestrator.run_cons _ _ _ _ _ _ ∅ synthesis_event
            (Orchestrator.Phase2 _ _ []) ∅); [reflexivity|].
  apply Orchestrator.run_nil.
Qed.

Lemma full_run_in_order_witness :
  Orchestrator.run (list Event) (list Event) replay replay [synthesis_event]
    (Orchestrator.Phase1 _ _ [specialist_event])
    [(Orchestrator.ParallelReview, specialist_event);
     (Orchestrator.TechLead, synthesis_event)]
    (Orchestrator.Phase2 _ _ []) ∧
  Orchestrator.run_async_impl_next (list Event) (list Event) replay replay
    [synthesis_event] (Orchestrator.Phase2 _ _ []) ∅ = Orchestrator.Exhausted ∅.
Proof.
  apply (full_run_in_order replay replay [specialist_event] [synthesis_event]
           [specialist_event] [] ∅ ∅ synthesis_event [] ∅ [] [] ∅ ∅);
    try reflexivity.
  - eapply (Orchestrator.yields_cons _ _ ∅ specialist_event [] ∅);
      [reflexivity|constructor].
  - constructor.
Defined.

Lemma first_loop_failure_witness :
  Orchestrator.run_async_impl_next unit (list Event) broken replay
    [synthesis_event] (Orchestrator.Phase1 _ _ ()) ∅
  = Orchestrator.Failed (OtherError "RuntimeError").
Proof.
  destruct (first_loop_failure broken replay () [synthesis_event] [] () ∅
              (OtherError "RuntimeError")) as (Hfail & _).
  - apply Orchestrator.run_nil.
  - by apply Hfail.
Defined.

Lemma second_loop_passes_on_witness :
  ∃ before event after g state0 state g' state',
    [(Orchestrator.ParallelReview, specialist_event);
     (Orchestrator.TechLead, synthesis_event)]
      = before ++ (Orchestrator.TechLead, event) :: after ∧
    Forall (λ x, x.1 = Orchestrator.ParallelReview) before ∧
    Orchestrator.yields replay [specialist_event] (before.*2) g ∧
    replay g state0 = Orchestrator.Exhausted state ∧
    replay [synthesis_event] state = Orchestrator.Yielded event g' state' ∧
    Orchestrator.yields replay g' (after.*2) [].
Proof.
  apply (second_loop_passes_on replay replay [specialist_event]
           [synthesis_event]).
  exact sample_run.
Defined.

(** ** Output keys *)



(** ** Tool discovery and configuration *)

Lemma discover_raises (get_tools : McpToolset → outcome (list string))
    (token : option string) (e : exn) :
  discover_mcp_tools get_tools token = Raises e ↔
  is_exception e = false ∧
  ∃ toolset, get_github_mcp_tools token = Returns toolset ∧
             get_tools toolset = Raises e.
Proof.
  unfold discover_mcp_tools, mbind, outcome_bind.
  destruct (get_github_mcp_tools token) as [toolset|e0] eqn:Htool.
  - destruct (get_tools toolset) as [names|e1] eqn:Hget.
    + split; [discriminate|]. intros (_ & t & [= <-] & He). congruence.
    + destruct (is_exception e1) eqn:Hexc.
      * split; [discriminate|]. intros (Hnot & t & [= <-] & He).
        congruence.
      * split.
        -- intros [= <-]. split; [exact Hexc|]. by exists toolset.
        -- intros (_ & t & [= <-] & He). congruence.
  - assert (is_exception e0 = true) as ->.
    { unfold get_github_mcp_tools in Htool.
      destruct token as [[|a rest]|]; simplify_eq/=; reflexivity. }
    split; [discriminate|]. intros (_ & t & [=] & _).
Qed.

(** X13.  [discover_mcp_tools] absorbs the instances of [Exception] and
    nothing else: it returns the empty list when the token is unset or
    empty, and when fetching the tools raises an instance of [Exception];
    it returns the tool names when the toolset answers; and it raises
    exactly when the token is set and fetching the tools raises something
    that is not an instance of [Exception], which it passes on unchanged.
    The toolset it builds sends the token as a bearer token. *)
Theorem discover_absorbs_errors
    (get_tools : McpToolset → outcome (list string)) (token : option string) :
  (env_set token = false → discover_mcp_tools get_tools token = Returns []) ∧
  (∀ toolset, get_github_mcp_tools token = Returns toolset →
     (∃ text, token = Some text ∧
              headers toolset = [("Authorization", "Bearer " +:+ text)]) ∧
     (∀ names, get_tools toolset = Returns names →
        discover_mcp_tools get_tools token = Returns names) ∧
     (∀ e, get_tools toolset = Raises e → is_exception e = true →
        discover_mcp_tools get_tools token = Returns []) ∧
     (∀ e, get_tools toolset = Raises e → is_exception e = false →
        discover_mcp_tools get_tools token = Raises e)) ∧
  (∀ e, discover_mcp_tools get_tools token = Raises e ↔
     is_exception e = false ∧
     ∃ toolset, get_github_mcp_tools token = Returns toolset ∧
                get_tools toolset = Raises e).
Proof.
  split; [|split; [|apply discover_raises]].
  - unfold discover_mcp_tools, get_github_mcp_tools, mbind, outcome_bind.
    destruct token as [[|a rest]|]; cbn [env_set]; [done|discriminate|done].
  - intros toolset Htool. split.
    { unfold get_github_mcp_tools in Htool.
      destruct token as [[|a rest]|]; try discriminate.
      injection Htool as <-. by eexists. }
    unfold discover_mcp_tools, mbind, outcome_bind. rewrite Htool.
    split; [by intros names ->|].
    split; intros e -> Hexc; by rewrite Hexc.
Qed.

(** X14.  After the block of [main] that reads the pull request from the
    environment, owner, repository and number are all set and non-empty:
    each is the value of its variable when that is set and non-empty, and
    otherwise its test value, whether or not the other variables are set. *)
Theorem pr_details_defaults (owner repo pr_number : option string) :
  pr_details owner repo pr_number =
    (Some (or_else owner "test-owner"), Some (or_else repo "test-repo"),
     Some (or_else pr_number "1")) ∧
  env_set (pr_details owner repo pr_number).1.1 = true ∧
  env_set (pr_details owner repo pr_number).1.2 = true ∧
  env_set (pr_details owner repo pr_number).2 = true.
Proof.
  unfold pr_details.
  destruct owner as [[|a1 s1]|], repo as [[|a2 s2]|], pr_number as [[|a3 s3]|];
    by repeat split.
Qed.

(** ** The printed list of files *)



(** ** The entries and the override *)

Lemma py_len_nonneg v n : py_len v = Returns n → 0 ≤ n.
Proof. destruct v; simpl; intros [= <-]; lia. Qed.

Lemma findings_total_cons e entries :
  findings_total (e :: entries) = sr_findings_count e + findings_total entries.
Proof. reflexivity. Qed.

Lemma findings_total_nonneg entries :
  Forall (λ e, 0 ≤ sr_findings_count e) entries → 0 ≤ findings_total entries.
Proof.
  induction 1 as [|e entries He _ IH]; [done|].
  rewrite findings_total_cons. lia.
Qed.

Lemma findings_total_zero entries :
  Forall (λ e, 0 ≤ sr_findings_count e) entries →
  findings_total entries = 0 →
  Forall (λ e, sr_findings_count e = 0) entries.
Proof.
  induction 1 as [|e entries He Hall IH]; [constructor|].
  rewrite findings_total_cons. intros Hzero.
  pose proof (findings_total_nonneg _ Hall) as Hsum.
  constructor; [lia|]. apply IH. lia.
Qed.

Lemma with_output_all `{Decoder} (state : session_state) :
  (∀ a, a ∈ specialist_agents → access_failed state a = false) →
  with_output state = specialist_agents.
Proof.
  intros Hall. unfold with_output.
  apply List.forallb_filter_id, forallb_forall.
  intros a Ha%list_elem_of_In. specialize (Hall a Ha).
  unfold access_failed in Hall. apply orb_false_elim in Hall as [-> _].
  done.
Qed.

Lemma entry_of_count owner repo pr_num agent d n :
  sr_findings_count (entry_of owner repo pr_num agent d n) = n.
Proof. reflexivity. Qed.

(** X16.  Every entry of a report repeats the payload extracted from its
    specialist's output: role from [agent_role] (the agent's description
    when absent), repository, number, summary, recommendation, rationale
    and findings with their defaults, the payload's own [pr_accessed] and
    its file list (also when access is denied), and the length of the
    findings, which is never negative. *)
Theorem entries_repeat_payloads `{Decoder} (owner repo : string) (pr_num : Z)
    (now : string) (events : list Event) (state : session_state) (r : Report) :
  run_review owner repo pr_num now events state = Returns r →
  Forall2 (λ agent e,
             ∃ d, payload_of state agent = Returns (JObj d) ∧
                  e = entry_of owner repo pr_num agent d (sr_findings_count e) ∧
                  py_len (findings_of d) = Returns (sr_findings_count e) ∧
                  0 ≤ sr_findings_count e)
    (with_output state) (specialist_reviews r).
Proof.
  intros (acc & d & Hacc & _ & ->)%run_review_returns.
  apply collect_returns in Hacc as (Hent & _).
  cbn [specialist_reviews report_from].
  eapply Forall2_impl; [exact Hent|].
  intros agent e (d' & n & Hpay & Hlen & ->). exists d'.
  split; [done|]. split; [done|]. split; [done|].
  by eapply py_len_nonneg.
Qed.

Lemma entries_repeat_payloads_witness :
  ∃ r, @run_review RefDecoder.decoder "octo" "demo" 7 "2025-01-01T00:00:00" []
         two_without_access = Returns r ∧
       sr_pr_accessed <$> specialist_reviews r
         = [JBool false; JBool false; JBool true; JBool true; JBool true] ∧
       Forall2 (λ agent e,
                  ∃ d, @payload_of RefDecoder.decoder two_without_access agent
                         = Returns (JObj d) ∧
                       e = entry_of "octo" "demo" 7 agent d (sr_findings_count e) ∧
                       py_len (findings_of d) = Returns (sr_findings_count e) ∧
                       0 ≤ sr_findings_count e)
         (with_output two_without_access) (specialist_reviews r).
Proof.
  run_sample Hrun Hval. split; [by_value Hval|].
  exact (@entries_repeat_payloads RefDecoder.decoder _ _ _ _ _ _ _ Hrun).
Defined.

(** X17.  The decision of a report is [APPROVE] when the findings total 0
    with status [all_success], and is otherwise the synthesis payload's
    [final_decision] ([COMMENT] when it has none); [auto_approve] and the
    decision are overridden together.  When the override applies, each of
    the five specialists has an entry and none of the entries has a
    finding. *)
Theorem final_decision_spec `{Decoder} (owner repo : string) (pr_num : Z)
    (now : string) (events : list Event) (state : session_state) (r : Report) :
  run_review owner repo pr_num now events state = Returns r →
  ∃ d, parse_json_response (synthesis_text events state) = Returns (JObj d) ∧
    let override :=
      (findings_total (specialist_reviews r) =? 0) &&
      String.eqb (data_access_status r) "all_success" in
    final_decision r =
      (if override then JStr "APPROVE"
       else default (JStr "COMMENT") (d !! "final_decision")) ∧
    auto_approve r =
      (if override then JBool true
       else default (JBool false) (d !! "auto_approve")) ∧
    (override = true →
       length (specialist_reviews r) = 5%nat ∧
       Forall (λ e, sr_findings_count e = 0) (specialist_reviews r)).
Proof.
  intros (acc & d & Hacc & Hsyn & ->)%run_review_returns.
  apply collect_returns in Hacc as (Hent & Hiss & _).
  exists d. split; [exact Hsyn|].
  cbn [final_decision auto_approve specialist_reviews data_access_status
       report_from].
  unfold override_applies. split; [reflexivity|]. split; [reflexivity|].
  rewrite Hiss.
  intros [Hzero Hstatus]%andb_prop. apply Z.eqb_eq in Hzero.
  apply String.eqb_eq in Hstatus.
  pose proof (proj1 (data_status_success state) Hstatus) as Hall. split.
  - rewrite <- (Forall2_length _ _ _ Hent), (with_output_all state Hall).
    reflexivity.
  - apply findings_total_zero; [|exact Hzero].
    clear -Hent.
    induction Hent as [|a e l k (d & n & _ & Hn & ->) _ IH];
      constructor; [|exact IH].
    rewrite entry_of_count. by eapply py_len_nonneg.
Qed.

Lemma final_decision_spec_witness :
  ∃ r, @run_review RefDecoder.decoder "octo" "demo" 7 "2025-01-01T00:00:00" []
         (all_clean cautious_synthesis) = Returns r ∧
       final_decision r = JStr "APPROVE" ∧
       length (specialist_reviews r) = 5%nat ∧
       Forall (λ e, sr_findings_count e = 0) (specialist_reviews r).
Proof.
  run_sample Hrun Hval. split; [by_value Hval|].
  destruct (@final_decision_spec RefDecoder.decoder _ _ _ _ _ _ _ Hrun)
    as (d & _ & _ & _ & Hover).
  apply Hover. by_value Hval.
Defined.

(** ** Samples for the extractor's exceptions and the tool discovery *)

Lemma parse_raises_iff_witness :
  let strict : Decoder := λ _, Raises TypeError in
  @parse_json_response strict "{}" = Raises TypeError.
Proof.
  intros strict.
  apply (proj2 (@parse_raises_iff strict "{}" TypeError)).
  split; [exists 0%nat, 1%nat; split; [lia|split; reflexivity]|].
  split; [discriminate|reflexivity].
Defined.

Lemma discover_absorbs_errors_witness :
  let failing : McpToolset → outcome (list string) :=
    λ _, Raises (OtherError "ConnectionError") in
  let cancelled : McpToolset → outcome (list string) :=
    λ _, Raises (BaseError "CancelledError") in
  get_github_mcp_tools (Some "t0ken")
    = Returns {| url := "https://api.githubcopilot.com/mcp/";
                 headers := [("Authorization", "Bearer t0ken")] |} ∧
  discover_mcp_tools failing (Some "t0ken") = Returns [] ∧
  discover_mcp_tools failing None = Returns [] ∧
  discover_mcp_tools cancelled (Some "t0ken")
    = Raises (BaseError "CancelledError").
Proof.
  intros failing cancelled.
  destruct (discover_absorbs_errors failing (Some "t0ken"))
    as (_ & Hset & _).
  destruct (discover_absorbs_errors failing None) as (Hunset & _).
  destruct (discover_absorbs_errors cancelled (Some "t0ken"))
    as (_ & Hset' & _).
  split; [reflexivity|]. split; [|split].
  - destruct (Hset _ eq_refl) as (_ & _ & Habs & _).
    by apply (Habs (OtherError "ConnectionError")).
  - by apply Hunset.
  - destruct (Hset' _ eq_refl) as (_ & _ & _ & Hraise).
    by apply Hraise.
Defined.

(** ** The exit code of [main] *)

Lemma pr_details_values (owner repo pr_number : option string) :
  pr_details owner repo pr_number =
    (Some (or_else owner "test-owner"), Some (or_else repo "test-repo"),
     Some (or_else pr_number "1")).
Proof.
  unfold pr_details.
  destruct owner as [[|a o]|], repo as [[|b r]|], pr_number as [[|c p]|];
    reflexivity.
Qed.

Lemma main_unfold (get_tools : McpToolset → outcome (list string))
    (py_int : string → outcome Z)
    (review : string → string → Z → outcome unit)
    (gcp token owner repo pr_number : option string) :
  main get_tools py_int review gcp token owner repo pr_number =
  if env_set gcp && env_set token then
    match discover_mcp_tools get_tools token with
    | Raises e => Raises e
    | Returns _ =>
        match py_int (or_else pr_number "1") with
        | Raises e => Raises e
        | Returns n =>
            match review (or_else owner "test-owner")
                    (or_else repo "test-repo") n with
            | Returns _ => Returns 0
            | Raises e => if is_exception e then Returns 1 else Raises e
            end
        end
    end
  else Returns 1.
Proof.
  unfold main. rewrite pr_details_values. cbv [default from_option id].
  destruct (env_set gcp), (env_set token); cbn [negb andb]; try reflexivity.
  unfold mbind, outcome_bind.
  destruct (discover_mcp_tools get_tools token) as [names|e] eqn:Hdisc;
    [reflexivity|].
  apply discover_raises in Hdisc as [-> _]. reflexivity.
Qed.

Lemma or_else_nonempty (v : option string) (dflt : string) :
  dflt ≠ EmptyString → or_else v dflt ≠ EmptyString.
Proof. by destruct v as [[|a rest]|]. Qed.

(** X18.  [main] returns 0 exactly when both configuration variables are
    set and non-empty, the discovery of the tools returns, the number (or
    its test value) converts to an integer and nothing is raised while
    reviewing and reporting; the review is then run on non-empty owner and
    repository.  It raises exactly what leaves the discovery (never an
    instance of [Exception]), what the conversion of the number raises,
    which happens outside the [try], and what is raised while reviewing and
    reporting that is not an instance of [Exception]; the review is not
    run after either of the first two.  In every other case, and whenever
    a configuration variable is missing, it returns 1. *)
Theorem main_exit_code (get_tools : McpToolset → outcome (list string))
    (py_int : string → outcome Z)
    (review : string → string → Z → outcome unit)
    (gcp token owner repo pr_number : option string) :
  let owner' := or_else owner "test-owner" in
  let repo' := or_else repo "test-repo" in
  let configured := env_set gcp && env_set token in
  let discovered := ∃ names, discover_mcp_tools get_tools token = Returns names in
  let result := main get_tools py_int review gcp token owner repo pr_number in
  (result = Returns 0 ↔
     configured = true ∧ discovered ∧
     owner' ≠ EmptyString ∧ repo' ≠ EmptyString ∧
     ∃ n, py_int (or_else pr_number "1") = Returns n ∧
          ∃ u, review owner' repo' n = Returns u) ∧
  (∀ e, result = Raises e ↔
     configured = true ∧
     ((is_exception e = false ∧
       discover_mcp_tools get_tools token = Raises e) ∨
      (discovered ∧ py_int (or_else pr_number "1") = Raises e) ∨
      (discovered ∧ is_exception e = false ∧
       ∃ n, py_int (or_else pr_number "1") = Returns n ∧
            review owner' repo' n = Raises e))) ∧
  (∀ code, result = Returns code → code = 0 ∨ code = 1) ∧
  (configured = false → result = Returns 1).
Proof.
  intros owner' repo' configured discovered result.
  subst owner' repo' configured discovered result.
  rewrite main_unfold.
  destruct (env_set gcp && env_set token).
  2: { split; [split; [discriminate|intros [? _]; discriminate]|].
       split; [intros e; split; [discriminate|intros [? _]; discriminate]|].
       split; [intros code [= <-]; by right|reflexivity]. }
  destruct (discover_mcp_tools get_tools token) as [names|e0] eqn:Hdisc.
  2: { pose proof (proj1 (discover_raises _ _ _) Hdisc) as [Hexc _].
       split; [split; [discriminate|]|].
       { intros (_ & [names [=]] & _). }
       split; [|split; [discriminate|discriminate]].
       intros e. split.
       - intros [= <-]. split; [reflexivity|]. by left.
       - intros [_ [[_ [= ->]]|[[[names [=]] _]|[[names [=]] _]]]].
         reflexivity. }
  destruct (py_int (or_else pr_number "1")) as [n|e1] eqn:Hint.
  2: { split; [split; [discriminate|]|].
       { intros (_ & _ & _ & _ & n & [=] & _). }
       split; [|split; [discriminate|discriminate]].
       intros e. split.
       - intros [= <-]. split; [reflexivity|]. right; left.
         split; [by exists names|reflexivity].
       - intros [_ [[_ [=]]|[[_ [= ->]]|(_ & _ & n & [=] & _)]]].
         reflexivity. }
  destruct (review (or_else owner "test-owner") (or_else repo "test-repo") n)
    as [u|e2] eqn:Hrev.
  { split; [split; [intros _|reflexivity]|].
    { split; [reflexivity|]. split; [by exists names|].
      split; [by apply or_else_nonempty|].
      split; [by apply or_else_nonempty|].
      exists n. split; [reflexivity|]. by exists u. }
    split; [|split; [intros code [= <-]; by left|discriminate]].
    intros e. split; [discriminate|].
    intros [_ [[_ [=]]|[[_ [=]]|(_ & _ & n' & [= <-] & He)]]].
    congruence. }
  destruct (is_exception e2) eqn:Hexc.
  - split; [split; [discriminate|]|].
    { intros (_ & _ & _ & _ & n' & [= <-] & u & Hu). congruence. }
    split; [|split; [intros code [= <-]; by right|discriminate]].
    intros e. split; [discriminate|].
    intros [_ [[_ [=]]|[[_ [=]]|(_ & Hnot & n' & [= <-] & He)]]].
    congruence.
  - split; [split; [discriminate|]|].
    { intros (_ & _ & _ & _ & n' & [= <-] & u & Hu). congruence. }
    split; [|split; [discriminate|discriminate]].
    intros e. split.
    + intros [= <-]. split; [reflexivity|]. right; right.
      split; [by exists names|]. split; [exact Hexc|]. by exists n.
    + intros [_ [[_ [=]]|[[_ [=]]|(_ & _ & n' & [= <-] & He)]]].
      congruence.
Qed.

Lemma main_exit_code_witness :
  let get_tools : McpToolset → outcome (list string) :=
    λ _, Returns ["get_pull_request"] in
  let py_int : string → outcome Z := λ _, Returns 7 in
  let cancelled : string → string → Z → outcome unit :=
    λ _ _ _, Raises (BaseError "CancelledError") in
  let failing : string → string → Z → outcome unit :=
    λ _ _ _, Raises (OtherError "RuntimeError") in
  main get_tools py_int cancelled (Some "project") (Some "t0ken")
       (Some "octo") (Some "demo") (Some "7")
    = Raises (BaseError "CancelledError") ∧
  main get_tools py_int failing (Some "project") (Some "t0ken")
       (Some "octo") (Some "demo") (Some "7")
    = Returns 1 ∧
  main get_tools py_int failing (Some "project") None
       (Some "octo") (Some "demo") (Some "7")
    = Returns 1.
Proof.
  intros get_tools py_int cancelled failing.
  destruct (main_exit_code get_tools py_int cancelled (Some "project")
              (Some "t0ken") (Some "octo") (Some "demo") (Some "7"))
    as (_ & Hraise & _).
  destruct (main_exit_code get_tools py_int failing (Some "project") None
              (Some "octo") (Some "demo") (Some "7"))
    as (_ & _ & _ & Hmissing).
  split; [|split; [reflexivity|]].
  - apply Hraise. split; [reflexivity|]. right; right.
    split; [by eexists|]. split; [reflexivity|]. by exists 7.
  - by apply Hmissing.
Defined.
